(** * Styrene command line front end ([styrene/cmdline.py])

    A shallow embedding of the three parts of [cmdline.py]:
    - [ColorFormatter.format]: the placeholder highlighting of log messages;
    - [process_spec_file]: the build lifecycle of one bundle specification;
    - [main]: logging set-up and the loop over the specification files.

    Python strings are [string]; file contents are byte lists; the file
    system, the log and the calls to collaborators are explicit state. *)

From Stdlib Require Import String Ascii ZArith Bool Lia.
From stdpp Require Import gmap strings list fin_maps.

Local Open Scope string_scope.
#[local] Arguments String.append !_ _ : simpl nomatch.

(** ** Strings *)

Module Str.

Fixpoint all (f : ascii -> bool) (s : string) : bool :=
  match s with
  | EmptyString => true
  | String a s' => f a && all f s'
  end.

End Str.

(** ** Regular expressions of [ColorFormatter.format]

    The four patterns only use literal characters, an optional literal
    ([\+?]) and a starred character set ([[0-9.]*]).  [match_here] is the
    backtracking matcher of Python's [re] on that fragment: alternatives
    are tried greedily first, and the first success wins.  It returns the
    matched text ([m.group(0)]) and the text after the match. *)

Inductive atom : Type :=
  | Chr (c : ascii)
  | OptChr (c : ascii)
  | StarSet (cls : ascii -> bool).

Definition pattern : Type := list atom.

Definition consume (a : ascii) (r : option (string * string)) : option (string * string) :=
  match r with
  | Some (m, rest) => Some (String a m, rest)
  | None => None
  end.

Definition or_else {A} (r : option A) (alt : option A) : option A :=
  match r with
  | Some x => Some x
  | None => alt
  end.

Fixpoint match_here (p : pattern) : string -> option (string * string) :=
  match p with
  | [] => fun s => Some ("", s)
  | Chr c :: p' => fun s =>
      match s with
      | String a s' => if Ascii.eqb a c then consume a (match_here p' s') else None
      | EmptyString => None
      end
  | OptChr c :: p' => fun s =>
      match s with
      | String a s' =>
          if Ascii.eqb a c
          then or_else (consume a (match_here p' s')) (match_here p' s)
          else match_here p' s
      | EmptyString => match_here p' s
      end
  | StarSet cls :: p' =>
      fix star (s : string) : option (string * string) :=
        match s with
        | String a s' =>
            if cls a
            then or_else (consume a (star s')) (match_here p' s)
            else match_here p' s
        | EmptyString => match_here p' s
        end
  end.

(** [token_re.sub(repl, msg)]: scan left to right, replace every match
    by [repl] of the matched text and go on after the match.  The
    recursion continues on the text after a match, so it runs on fuel;
    [re_sub] supplies more fuel than the scan can use. *)
Fixpoint sub_fuel (fuel : nat) (p : pattern) (repl : string -> string)
    (s : string) : string :=
  match fuel with
  | O => s
  | S fuel' =>
      match match_here p s with
      | Some (String a m, rest) =>
          repl (String a m) +:+ sub_fuel fuel' p repl rest
      | Some (EmptyString, _) =>
          repl "" +:+
          match s with
          | String a s' => String a (sub_fuel fuel' p repl s')
          | EmptyString => ""
          end
      | None =>
          match s with
          | String a s' => String a (sub_fuel fuel' p repl s')
          | EmptyString => ""
          end
      end
  end.

Definition re_sub (p : pattern) (repl : string -> string) (s : string) : string :=
  sub_fuel (S (String.length s)) p repl s.

(** ** ColorFormatter *)

Module ColorFormatter.

Definition ESC : ascii := ascii_of_nat 27.

(** [range(8)] *)
Definition BLACK := 0%nat.
Definition RED := 1%nat.
Definition GREEN := 2%nat.
Definition YELLOW := 3%nat.
Definition BLUE := 4%nat.
Definition MAGENTA := 5%nat.
Definition CYAN := 6%nat.
Definition WHITE := 7%nat.
Definition FG := 30%nat.
Definition BG := 40%nat.

Definition digit (n : nat) : ascii := ascii_of_nat (48 + n mod 10).

(** ["%02d" % n] for the two-digit codes used by the table. *)
Definition fmt_02d (n : nat) : string :=
  String (digit (n / 10)) (String (digit n) "").

Definition LEVELCOL : gmap string string :=
  <["CRITICAL" := String ESC ("[" +:+ fmt_02d (FG + RED) +:+ ";" +:+ fmt_02d (BG + BLACK) +:+ "m")]>
  (<["ERROR" := String ESC ("[" +:+ fmt_02d (FG + RED) +:+ "m")]>
  (<["WARNING" := String ESC ("[" +:+ fmt_02d (FG + MAGENTA) +:+ "m")]>
  (<["INFO" := String ESC ("[" +:+ fmt_02d (FG + GREEN) +:+ "m")]>
  (<["DEBUG" := String ESC ("[" +:+ fmt_02d (FG + CYAN) +:+ "m")]> ∅)))).

Definition BOLD : string := String ESC "[01m".
Definition BOLDOFF : string := String ESC "[22m".
Definition ITALIC : string := String ESC "[03m".
Definition ITALICOFF : string := String ESC "[23m".
Definition UNDERLINE : string := String ESC "[04m".
Definition UNDERLINEOFF : string := String ESC "[24m".
Definition RESET : string := String ESC "[0m".

(** [m] stands for [m.group(0)]. *)
Definition replace_bold (m : string) : string := BOLD +:+ m +:+ BOLDOFF.
Definition replace_italic (m : string) : string := ITALIC +:+ m +:+ ITALICOFF.
Definition replace_underline (m : string) : string :=
  UNDERLINE +:+ m +:+ UNDERLINEOFF.

Definition digit_or_dot (a : ascii) : bool :=
  let n := nat_of_ascii a in
  ((48 <=? n) && (n <=? 57))%nat || Ascii.eqb a ".".

(** [r'%r'], [r'%s'], [r'%\+?[0-9.]*d'], [r'%\+?[0-9.]*f'] *)
Definition re_repr : pattern := [Chr "%"; Chr "r"].
Definition re_str : pattern := [Chr "%"; Chr "s"].
Definition re_int : pattern :=
  [Chr "%"; OptChr "+"; StarSet digit_or_dot; Chr "d"].
Definition re_float : pattern :=
  [Chr "%"; OptChr "+"; StarSet digit_or_dot; Chr "f"].

Definition token_formatting : list (pattern * (string -> string)) :=
  [ (re_repr, replace_bold);
    (re_str, replace_bold);
    (re_int, replace_bold);
    (re_float, replace_bold) ].

(** The loop [for token_re, repl in token_formatting: msg = ...]. *)
Definition highlight (msg : string) : string :=
  fold_left (fun msg '(token_re, repl) => re_sub token_re repl msg)
            token_formatting msg.

(** The attributes of a log record that [format] reads or sets. *)
Record LogRecord : Type := {
  levelname : string;
  name : string;
  msg : string;
  reset : string;
  bold : string;
  boldOff : string;
  italic : string;
  italicOff : string;
  underline : string;
  underlineOff : string;
  levelCol : string;
}.

(** [format], up to the call of [logging.Formatter.format] on the
    updated copy of the record. *)
Definition format_record (record : LogRecord) : LogRecord :=
  {| levelname := levelname record;
     name := name record;
     msg := highlight (msg record);
     reset := RESET;
     bold := BOLD;
     boldOff := BOLDOFF;
     italic := ITALIC;
     italicOff := ITALICOFF;
     underline := UNDERLINE;
     underlineOff := UNDERLINEOFF;
     levelCol := default "" (LEVELCOL !! levelname record) |}.

End ColorFormatter.

(** ** What a highlighted message is, in the words of the specification

    A placeholder of one of the four kinds, and the result of wrapping
    every placeholder of one kind, left to right, in a bold pair. *)

Inductive kind : Type := KRepr | KStr | KInt | KFloat.

(** A percent sign, an optional plus, any run of digits and dots, the
    conversion character. *)
Definition numeric_placeholder (c : ascii) (m : string) : Prop :=
  exists sign digits : string,
    m = "%" +:+ sign +:+ digits +:+ String c ""
    /\ (sign = "" \/ sign = "+")
    /\ Str.all ColorFormatter.digit_or_dot digits = true.

Definition is_placeholder (k : kind) (m : string) : Prop :=
  match k with
  | KRepr => m = "%r"
  | KStr => m = "%s"
  | KInt => numeric_placeholder "d" m
  | KFloat => numeric_placeholder "f" m
  end.

Inductive Wrapped (k : kind) : string -> string -> Prop :=
  | W_end : Wrapped k "" ""
  | W_skip (a : ascii) (s out : string) :
      (forall m rest, String a s = m +:+ rest -> ~ is_placeholder k m) ->
      Wrapped k s out ->
      Wrapped k (String a s) (String a out)
  | W_hit (s m rest out : string) :
      s = m +:+ rest ->
      is_placeholder k m ->
      Wrapped k rest out ->
      Wrapped k s (ColorFormatter.BOLD +:+ m +:+ ColorFormatter.BOLDOFF +:+ out).

Definition Highlighted (msg out : string) : Prop :=
  exists m1 m2 m3 : string,
    Wrapped KRepr msg m1 /\ Wrapped KStr m1 m2 /\
    Wrapped KInt m2 m3 /\ Wrapped KFloat m3 out.

Definition regex_of (k : kind) : pattern :=
  match k with
  | KRepr => ColorFormatter.re_repr
  | KStr => ColorFormatter.re_str
  | KInt => ColorFormatter.re_int
  | KFloat => ColorFormatter.re_float
  end.

(** [c in s] *)
Fixpoint contains (c : ascii) (s : string) : bool :=
  match s with
  | EmptyString => false
  | String a s' => Ascii.eqb a c || contains c s'
  end.

(** The level names that have an entry in [LEVELCOL]. *)
Definition known_levels : list string :=
  ["DEBUG"; "INFO"; "WARNING"; "ERROR"; "CRITICAL"].

(** What a terminal shows of a text: a control sequence runs from the
    escape character to the first "m" after it and shows nothing, every
    other character is shown.  [in_code] tells whether a sequence is
    open at the start of the text. *)
Fixpoint shown (in_code : bool) (s : string) : string :=
  match s with
  | EmptyString => ""
  | String a s' =>
      if in_code then shown (negb (Ascii.eqb a "m")) s'
      else if Ascii.eqb a ColorFormatter.ESC then shown true s'
      else String a (shown false s')
  end.

(** No percent sign inside a control sequence of the text. *)
Fixpoint codes_plain (in_code : bool) (s : string) : bool :=
  match s with
  | EmptyString => true
  | String a s' =>
      if in_code
      then negb (Ascii.eqb a "%") && codes_plain (negb (Ascii.eqb a "m")) s'
      else codes_plain (Ascii.eqb a ColorFormatter.ESC) s'
  end.

(** ** Exceptions and outcomes

    A call either returns or raises.  [Exception cls] is an instance of
    [Exception] (or of a subclass), named by its class; [SystemExit]
    derives from [BaseException] only, so that [except Exception] lets it
    through. *)

Inductive Exn : Type :=
  | Exception (cls : string)
  | SystemExit (code : Z).

Definition is_Exception (e : Exn) : bool :=
  match e with
  | Exception _ => true
  | _ => false
  end.

Inductive Outcome (A : Type) : Type :=
  | Ok (a : A)
  | Raise (e : Exn).
Arguments Ok {A} a.
Arguments Raise {A} e.

(** ** Paths ([posixpath]) *)

Module Path.

Definition is_sep (a : ascii) : bool := Ascii.eqb a "/".

Fixpoint has_sep (p : string) : bool :=
  match p with
  | EmptyString => false
  | String a p' => is_sep a || has_sep p'
  end.

Definition starts_with_sep (p : string) : bool :=
  match p with
  | String a _ => is_sep a
  | EmptyString => false
  end.

Fixpoint ends_with_sep (p : string) : bool :=
  match p with
  | EmptyString => false
  | String a EmptyString => is_sep a
  | String _ p' => ends_with_sep p'
  end.

(** [os.path.basename(p)]: [p[p.rfind('/') + 1:]] *)
Fixpoint basename (p : string) : string :=
  match p with
  | EmptyString => ""
  | String a p' =>
      if has_sep p' then basename p'
      else if is_sep a then p' else p
  end.

(** [p[:p.rfind('/') + 1]] *)
Fixpoint head (p : string) : string :=
  match p with
  | EmptyString => ""
  | String a p' =>
      if has_sep p' then String a (head p')
      else if is_sep a then String a "" else ""
  end.

Fixpoint rstrip_sep (s : string) : string :=
  match s with
  | EmptyString => ""
  | String a s' =>
      match rstrip_sep s' with
      | EmptyString => if is_sep a then "" else String a ""
      | r => String a r
      end
  end.

(** [os.path.dirname(p)] *)
Definition dirname (p : string) : string :=
  let h := head p in
  if negb (String.eqb h "") && negb (Str.all is_sep h) then rstrip_sep h else h.

(** [os.path.join(a, b)] *)
Definition join (a b : string) : string :=
  if starts_with_sep b then b
  else if String.eqb a "" || ends_with_sep a then a +:+ b
  else a +:+ "/" +:+ b.

(** [p] is [d] or lies below it. *)
Definition under (d p : string) : bool :=
  String.eqb p d || String.prefix (d +:+ "/") p.

End Path.

(** ** The file system

    Directories, regular files with their bytes, and the set of paths
    that lack write permission.  Paths are compared as strings: links
    and the normalisation of [.], [..] and doubled separators are outside
    the model. *)

Record FS : Type := {
  fs_dirs : gset string;
  fs_files : gmap string (list Byte.byte);
  fs_readonly : gset string;
}.

Definition isdir (fs : FS) (p : string) : bool := bool_decide (p ∈ fs_dirs fs).

Definition isfile (fs : FS) (p : string) : bool :=
  match fs_files fs !! p with
  | Some _ => true
  | None => false
  end.

Definition readonly (fs : FS) (p : string) : bool :=
  bool_decide (p ∈ fs_readonly fs).

Definition path_exists (fs : FS) (p : string) : bool := isdir fs p || isfile fs p.

(** [os.mkdir(p, 0o700)] once its checks have passed. *)
Definition mkdir (fs : FS) (p : string) : FS :=
  {| fs_dirs := {[p]} ∪ fs_dirs fs;
     fs_files := fs_files fs;
     fs_readonly := fs_readonly fs ∖ {[p]} |}.

(** [tempfile.mkdtemp(prefix=...)]: candidate names are tried in turn;
    one that exists already is skipped; when they run out,
    [FileExistsError] is raised.  Returns what is left of the names. *)
Fixpoint mkdtemp_from (tmpdir pfx : string) (names : list string) (fs : FS)
    : Outcome string * list string * FS :=
  match names with
  | [] => (Raise (Exception "FileExistsError"), [], fs)
  | n :: names' =>
      let file := Path.join tmpdir (pfx +:+ n) in
      if path_exists fs file then mkdtemp_from tmpdir pfx names' fs
      else if negb (isdir fs tmpdir)
      then (Raise (Exception "FileNotFoundError"), names', fs)
      else if readonly fs tmpdir
      then (Raise (Exception "PermissionError"), names', fs)
      else (Ok file, names', mkdir fs file)
  end.

(** An ancestor of [p] is a regular file: the path cannot be walked,
    and opening [p] fails with [NotADirectoryError] rather than with
    [FileNotFoundError]. *)
Fixpoint file_above (n : nat) (fs : FS) (p : string) : bool :=
  match n with
  | O => false
  | S n' =>
      let d := Path.dirname p in
      if String.eqb d p then false else isfile fs d || file_above n' fs d
  end.

Definition open_error (fs : FS) (p : string) : Exn :=
  Exception (if file_above (String.length p) fs p then "NotADirectoryError"
             else "FileNotFoundError").

(** [shutil.copy(src, dst)]: a directory as destination receives the
    file under the base name of [src]; then [copyfile] and [copymode].
    Returns the path written.  [copyfile] refuses to copy a file onto
    itself ([os.path.samefile], which is false when the file does not
    exist), opens the source for reading, then the destination for
    writing.  Every failure modelled happens when one of the two files is
    opened, before anything is written; a failure in the middle of the
    transfer (a full disk, a failing [chmod]) is not modelled. *)
Definition copy_target (fs : FS) (src dst : string) : string :=
  if isdir fs dst then Path.join dst (Path.basename src) else dst.

Definition shutil_copy (src dst : string) (fs : FS) : Outcome string * FS :=
  let dst := copy_target fs src dst in
  if String.eqb src dst && path_exists fs src
  then (Raise (Exception "SameFileError"), fs)
  else
    match fs_files fs !! src with
    | None =>
        (Raise (if isdir fs src then Exception "IsADirectoryError"
                else open_error fs src), fs)
    | Some data =>
        if isdir fs dst then (Raise (Exception "IsADirectoryError"), fs)
        else if negb (isdir fs (Path.dirname dst))
        then (Raise (open_error fs dst), fs)
        else if readonly fs dst || (negb (isfile fs dst) && readonly fs (Path.dirname dst))
        then (Raise (Exception "PermissionError"), fs)
        else
          (Ok dst,
           {| fs_dirs := fs_dirs fs;
              fs_files := <[dst := data]> (fs_files fs);
              fs_readonly :=
                if readonly fs src then {[dst]} ∪ fs_readonly fs
                else fs_readonly fs ∖ {[dst]} |})
    end.

(** [shutil.rmtree(d)].  Deleting an entry takes write permission on the
    directory that holds it, whatever the permissions of the entry
    itself: the deletion stops with [PermissionError] when an entry at or
    below [d] lies in a directory without write permission ([d] itself
    lies in its parent).  What had been deleted up to the error is not
    modelled, the tree is left as it was.  On success nothing at or below
    [d] remains. *)
Definition remove_tree (d : string) (fs : FS) : FS :=
  {| fs_dirs := filter (fun p => Path.under d p = false) (fs_dirs fs);
     fs_files := filter (fun kv => Path.under d kv.1 = false) (fs_files fs);
     fs_readonly := filter (fun p => Path.under d p = false) (fs_readonly fs) |}.

Definition entries (fs : FS) : list string :=
  elements (fs_dirs fs ∪ dom (fs_files fs)).

Definition shutil_rmtree (d : string) (fs : FS) : Outcome unit * FS :=
  if negb (isdir fs d)
  then (Raise (if isfile fs d then Exception "NotADirectoryError"
               else open_error fs d), fs)
  else if existsb (fun p => Path.under d p && readonly fs (Path.dirname p)) (entries fs)
  then (Raise (Exception "PermissionError"), fs)
  else (Ok tt, remove_tree d fs).

(** ** Options ([optparse] values) *)

Record Options : Type := {
  quiet : bool;
  debug : bool;
  output_dir : option string;
  pkgdirs : list string;
  build_exe : bool;
  build_zip : bool;
  colour : string;           (* the value of [--colour], text in UTF-8 *)
}.

(** The parser's defaults. *)
Definition default_options : Options :=
  {| quiet := false; debug := false; output_dir := None; pkgdirs := [];
     build_exe := true; build_zip := true; colour := "auto" |}.

(** ** Logging *)

Definition DEBUG : Z := 10.
Definition INFO : Z := 20.
Definition WARNING : Z := 30.
Definition ERROR : Z := 40.
Definition CRITICAL : Z := 50.

Inductive Formatter : Type :=
  | PlainFormatter (log_format : string)
  | ColorFormatter_ (log_format : string).

(** The root logger: its handlers (each a stream handler on [sys.stderr]
    with its formatter) and its level. *)
Record RootLogger : Type := {
  handlers : list Formatter;
  level : Z;
}.

(** ** What the program does, in order

    Calls on the module's logger and calls to collaborators, each
    recorded with its arguments when it is made. *)
Inductive Event : Type :=
  | ELog (levelno : Z) (msg : string) (args : list string)
  | EPrintHelp
  | ERead (spec_file : string)
  | ENativeBundle
  | ECheckDeps
  | EWriteDistributables (output_dir : string)
  | EGetcwd
  | EMkdtemp (pfx : string)
  | ECopy (src dst : string)
  | EFixTreePerms (d : string)
  | ERmtree (d : string).

Definition is_log (levelno : Z) (e : Event) : bool :=
  match e with
  | ELog l _ _ => Z.eqb l levelno
  | _ => false
  end.

Definition count_log (levelno : Z) (t : list Event) : nat :=
  length (filter (fun e => is_log levelno e = true) t).

(** ** The world *)

Record World : Type := {
  w_fs : FS;
  w_cwd : string;            (* the process's working directory *)
  w_tmpdir : string;         (* [tempfile.gettempdir()] *)
  w_names : list string;     (* the random names [mkdtemp] will draw *)
  w_root : RootLogger;
  w_trace : list Event;
}.

Definition set_fs (fs : FS) (w : World) : World :=
  {| w_fs := fs; w_cwd := w_cwd w; w_tmpdir := w_tmpdir w;
     w_names := w_names w; w_root := w_root w; w_trace := w_trace w |}.

Definition set_names (ns : list string) (w : World) : World :=
  {| w_fs := w_fs w; w_cwd := w_cwd w; w_tmpdir := w_tmpdir w;
     w_names := ns; w_root := w_root w; w_trace := w_trace w |}.

Definition set_root (r : RootLogger) (w : World) : World :=
  {| w_fs := w_fs w; w_cwd := w_cwd w; w_tmpdir := w_tmpdir w;
     w_names := w_names w; w_root := r; w_trace := w_trace w |}.

Definition record (e : Event) (w : World) : World :=
  {| w_fs := w_fs w; w_cwd := w_cwd w; w_tmpdir := w_tmpdir w;
     w_names := w_names w; w_root := w_root w; w_trace := w_trace w ++ [e] |}.

(** ** Computations: state and exceptions *)

Definition M (A : Type) : Type := World -> Outcome A * World.

#[global] Instance M_ret : MRet M := fun A a w => (Ok a, w).

#[global] Instance M_bind : MBind M := fun A B k m w =>
  match m w with
  | (Ok a, w') => k a w'
  | (Raise e, w') => (Raise e, w')
  end.

Definition raise {A} (e : Exn) : M A := fun w => (Raise e, w).

(** [try: body finally: fin].  An exception raised by [fin] replaces the
    outcome of [body]; otherwise the outcome of [body] stands. *)
Definition try_finally {A} (body : M A) (fin : M unit) : M A := fun w =>
  match body w with
  | (r, w1) =>
      match fin w1 with
      | (Ok _, w2) => (r, w2)
      | (Raise e, w2) => (Raise e, w2)
      end
  end.

(** [try: body except Exception: handler] *)
Definition try_except {A} (body : M A) (handler : M A) : M A := fun w =>
  match body w with
  | (Ok a, w1) => (Ok a, w1)
  | (Raise e, w1) => if is_Exception e then handler w1 else (Raise e, w1)
  end.

(** [for x in xs: body] *)
Fixpoint for_each {A} (xs : list A) (body : A -> M unit) : M unit :=
  match xs with
  | [] => mret tt
  | x :: xs' => body x ;; for_each xs' body
  end.

Definition emit (e : Event) : M unit := fun w => (Ok tt, record e w).

(** A call that works on the file system only, recorded by [e]. *)
Definition call {A} (e : Event) (f : FS -> Outcome A * FS) : M A := fun w =>
  let w := record e w in
  match f (w_fs w) with
  | (r, fs') => (r, set_fs fs' w)
  end.

Definition logger_info (msg : string) (args : list string) : M unit :=
  emit (ELog INFO msg args).
Definition logger_warning (msg : string) (args : list string) : M unit :=
  emit (ELog WARNING msg args).
(** [logger.exception] logs at level [ERROR], with the traceback. *)
Definition logger_exception (msg : string) (args : list string) : M unit :=
  emit (ELog ERROR msg args).

Definition sys_exit {A} (code : Z) : M A := raise (SystemExit code).

(** [os.getcwd()] fails when the working directory is gone. *)
Definition os_getcwd : M string := fun w =>
  let w := record EGetcwd w in
  if isdir (w_fs w) (w_cwd w) then (Ok (w_cwd w), w)
  else (Raise (Exception "FileNotFoundError"), w).

Definition tempfile_mkdtemp (pfx : string) : M string := fun w =>
  let w := record (EMkdtemp pfx) w in
  match mkdtemp_from (w_tmpdir w) pfx (w_names w) (w_fs w) with
  | (r, names', fs') => (r, set_fs fs' (set_names names' w))
  end.

(** ** Collaborators

    [NativeBundle] ([styrene/bundle.py]) and [fix_tree_perms]
    ([styrene/utils.py]) are not part of this file, and the grammar of the
    specification files belongs to [configparser]: they are taken as
    given, each a function on the file system that returns or raises.
    That they work on the file system only is an assumption of the model:
    the trace records the calls of this module, not what the engine logs
    through its own logger, and an engine that changed the working
    directory or the root logger is not covered.

    The case folding of the characters outside ASCII belongs to the
    Unicode tables of the interpreter; it is taken as given too.  Text is
    held in UTF-8, where no byte of a character outside ASCII is an ASCII
    byte: [casefold_nonascii run] is what [str.casefold] makes of [run],
    a maximal run of non-ASCII bytes of a text. *)
Class Collaborators : Type := {
  Spec : Type;
  Bundle : Type;
  empty_spec : Spec;
  parse_ini : list Byte.byte -> Outcome Spec;
  NativeBundle : Spec -> FS -> Outcome Bundle * FS;
  check_runtime_dependencies : Bundle -> FS -> Outcome unit * FS;
  write_distributables :
    Bundle -> string -> Options -> FS -> Outcome (list string) * FS;
  fix_tree_perms : string -> FS -> Outcome unit * FS;
  casefold_nonascii : string -> string;
}.

Section Program.

Context {C : Collaborators}.

(** [not output_dir]: [None] and the empty string count as unset. *)
Definition unset (d : option string) : bool :=
  match d with
  | Some (String _ _) => false
  | _ => true
  end.

Definition warning_1 : string :=
  "Both --no-zip and --no-exe were specified, with no --output-dir to write and keep the remaining intermediate files in.".
Definition warning_2 : string :=
  "This means that the bundle tree would be deleted as soon as it was created, so I'm doing nothing.".

(** The body of the loop over [written]. *)
Definition copy_out (output_dir distfile : string) : M unit :=
  let distfile_final := Path.join output_dir (Path.basename distfile) in
  call (ECopy distfile distfile_final) (shutil_copy distfile distfile_final) ;;
  mret tt.

(** The body of the [try] block, for the ephemeral directory [tmp_dir]. *)
Definition build_and_copy (bundle : Bundle) (options : Options)
    (output_dir tmp_dir : string) : M unit :=
  written ← call (EWriteDistributables tmp_dir)
                 (write_distributables bundle tmp_dir options);
  for_each written (copy_out output_dir).

(** The [finally] block. *)
Definition cleanup (tmp_dir : string) : M unit :=
  logger_info "Cleaning up “%s”" [tmp_dir] ;;
  call (EFixTreePerms tmp_dir) (fix_tree_perms tmp_dir) ;;
  call (ERmtree tmp_dir) (shutil_rmtree tmp_dir).

Definition process_spec_file (spec : Spec) (options : Options) : M unit :=
  bundle ← call ENativeBundle (NativeBundle spec);
  call ECheckDeps (check_runtime_dependencies bundle) ;;
  if unset (output_dir options) then
    if negb (build_zip options || build_exe options) then
      logger_warning warning_1 [] ;;
      logger_warning warning_2 [] ;;
      mret tt
    else
      output_dir ← os_getcwd;
      tmp_dir ← tempfile_mkdtemp "styrene";
      try_finally (build_and_copy bundle options output_dir tmp_dir)
                  (cleanup tmp_dir)
  else
    call (EWriteDistributables (default "" (output_dir options)))
         (write_distributables bundle (default "" (output_dir options)) options) ;;
    mret tt.

(** The case folding of an ASCII character: a capital letter becomes
    the small one, every other character stays. *)
Definition casefold_char (a : ascii) : ascii :=
  let n := nat_of_ascii a in
  if ((65 <=? n) && (n <=? 90))%nat then ascii_of_nat (n + 32) else a.

Definition is_ascii (a : ascii) : bool := (nat_of_ascii a <? 128)%nat.

(** [casefold_char] on every character: [str.casefold] on ASCII text. *)
Fixpoint ascii_lower (s : string) : string :=
  match s with
  | EmptyString => ""
  | String a s' => String (casefold_char a) (ascii_lower s')
  end.

(** [str.casefold]: the text is folded character by character, and the
    foldings are concatenated.  An ASCII character is folded by
    [casefold_char]; the characters outside ASCII are folded run by run,
    as the tables say.  [run] holds the non-ASCII bytes read since the
    last ASCII character. *)
Definition fold_run (run : string) : string :=
  if String.eqb run "" then "" else casefold_nonascii run.

Fixpoint casefold_from (run : string) (s : string) : string :=
  match s with
  | EmptyString => fold_run run
  | String a s' =>
      if is_ascii a
      then fold_run run +:+ String (casefold_char a) (casefold_from "" s')
      else casefold_from (run +:+ String a "") s'
  end.

Definition casefold (s : string) : string := casefold_from "" s.

(** [{"yes".casefold(): True, "no".casefold(): False}.get(colour.casefold(), isatty)] *)
Definition colourize (options : Options) (stderr_isatty : bool) : bool :=
  default stderr_isatty
    ((<[casefold "no" := false]> (<[casefold "yes" := true]> ∅) : gmap string bool)
       !! casefold (colour options)).

Definition console_formatter (options : Options) (stderr_isatty : bool) : Formatter :=
  if colourize options stderr_isatty
  then ColorFormatter_
         "%(levelCol)s%(levelname)s: %(bold)s%(name)s%(boldOff)s: %(message)s%(reset)s"
  else PlainFormatter "%(levelname)s: %(name)s: %(message)s".

Definition loglevel (options : Options) : Z :=
  if quiet options then WARNING
  else if debug options then DEBUG
  else INFO.

(** "Initialize logging": one more handler on the root logger, and its level. *)
Definition init_logging (options : Options) (stderr_isatty : bool) : M unit := fun w =>
  (Ok tt,
   set_root {| handlers := handlers (w_root w) ++ [console_formatter options stderr_isatty];
               level := loglevel options |} w).

(** [ConfigParser().read(spec_file, encoding="utf-8")]: a file that
    cannot be opened is skipped (the parser stays empty); the content of
    one that can is parsed, which may raise. *)
Definition ConfigParser_read (spec_file : string) : M Spec := fun w =>
  let w := record (ERead spec_file) w in
  match fs_files (w_fs w) !! spec_file with
  | None => (Ok empty_spec, w)
  | Some data => (parse_ini data, w)
  end.

(** The body of the loop "Process bundles". *)
Definition process_one (options : Options) (spec_file : string) : M unit :=
  spec ← try_except (ConfigParser_read spec_file)
           (logger_exception "Failed to load bundle spec file “%s”" [spec_file] ;;
            sys_exit 2);
  try_except (process_spec_file spec options)
    (logger_exception "Unexpected error while processing “%s”" [spec_file] ;;
     sys_exit 2).

(** [main], from the parsed command line ([options], [args]) on. *)
Definition main (options : Options) (args : list string) (stderr_isatty : bool)
    : M unit :=
  (if (length args =? 0)%nat then emit EPrintHelp ;; sys_exit 1 else mret tt) ;;
  init_logging options stderr_isatty ;;
  for_each args (process_one options).

(** The exit status of the process: 0 when [main] returns, the code
    of a [SystemExit], 1 for an uncaught exception. *)
Definition exit_status (r : Outcome unit) : Z :=
  match r with
  | Ok _ => 0
  | Raise (SystemExit code) => code
  | Raise (Exception _) => 1
  end.

(** The run of [process_spec_file] up to the creation of the ephemeral
    directory: the bundle, the output directory, the directory made and
    the world at that point, when the run gets that far. *)
Definition ephemeral_start (spec : Spec) (options : Options) (w : World)
    : option (Bundle * string * string * World) :=
  if unset (output_dir options) && (build_zip options || build_exe options) then
    match (bundle ← call ENativeBundle (NativeBundle spec);
           call ECheckDeps (check_runtime_dependencies bundle) ;;
           output_dir ← os_getcwd;
           tmp_dir ← tempfile_mkdtemp "styrene";
           mret (bundle, output_dir, tmp_dir)) w with
    | (Ok x, w') => Some (x, w')
    | (Raise _, _) => None
    end
  else None.

(** Modelled from the spec: [fix_tree_perms] ([styrene/utils.py], not
    part of this file) normalises the permissions below a directory; it
    creates, deletes and rewrites nothing. *)
Definition only_permissions : Prop :=
  forall (d : string) (fs : FS),
    fs_dirs (fix_tree_perms d fs).2 = fs_dirs fs /\
    fs_files (fix_tree_perms d fs).2 = fs_files fs.

(** Modelled from the spec: [write_distributables] ([styrene/bundle.py],
    not part of this file) builds into the directory it is given, which
    is created if absent. *)
Definition creates_output_dir : Prop :=
  forall (b : Bundle) (d : string) (o : Options) (fs : FS),
    match write_distributables b d o fs with
    | (Ok _, fs') => isdir fs' d = true
    | (Raise _, _) => True
    end.

(** The outcome of a call, its value forgotten. *)
Definition forget {A} (r : Outcome A) : Outcome unit :=
  match r with
  | Ok _ => Ok tt
  | Raise e => Raise e
  end.

End Program.

(** ** Relations between worlds, and the destination of a copy *)

(** The working directory, the temporary directory and the root logger
    are the same after any step. *)
Definition frame (w w' : World) : Prop :=
  w_root w' = w_root w /\ w_cwd w' = w_cwd w /\ w_tmpdir w' = w_tmpdir w.

(** As many error entries in the log after as before. *)
Definition same_errors (w w' : World) : Prop :=
  count_log ERROR (w_trace w') = count_log ERROR (w_trace w).

(** The destination of an artifact, as the loop computes it. *)
Definition dest (out a : string) : string := Path.join out (Path.basename a).

(** The input files read, in the order of the reads. *)
Fixpoint reads (t : list Event) : list string :=
  match t with
  | [] => []
  | ERead f :: t' => f :: reads t'
  | _ :: t' => reads t'
  end.

(** As many reads after as before. *)
Definition same_reads (w w' : World) : Prop :=
  reads (w_trace w') = reads (w_trace w).

(** ** Collaborators that raise nothing but [Exception]s

    That is, none of them ends the process itself ([sys.exit]). *)
Definition raise_exceptions_only `{C : Collaborators} : Prop :=
  (forall data e, parse_ini data = Raise e -> is_Exception e = true) /\
  (forall spec fs e, (NativeBundle spec fs).1 = Raise e -> is_Exception e = true) /\
  (forall b fs e,
     (check_runtime_dependencies b fs).1 = Raise e -> is_Exception e = true) /\
  (forall b d o fs e,
     (write_distributables b d o fs).1 = Raise e -> is_Exception e = true) /\
  (forall d fs e, (fix_tree_perms d fs).1 = Raise e -> is_Exception e = true).

(** A computation that raises nothing but [Exception]s. *)
Definition fails_softly {A} (m : M A) : Prop :=
  forall w e, (m w).1 = Raise e -> is_Exception e = true.

(** ** Letter case, independently of [casefold]

    The spellings of an ASCII word that differ from it in the case of
    letters only. *)

Definition lower_char (a : ascii) : ascii :=
  match Ascii.N_of_ascii a with
  | N0 => a
  | n => if ((65 <=? n) && (n <=? 90))%N then Ascii.ascii_of_N (n + 32) else a
  end.

Definition upper_char (a : ascii) : ascii :=
  match Ascii.N_of_ascii a with
  | N0 => a
  | n => if ((97 <=? n) && (n <=? 122))%N then Ascii.ascii_of_N (n - 32) else a
  end.

Fixpoint case_variants (s : string) : list string :=
  match s with
  | EmptyString => [""]
  | String a s' =>
      map (String (lower_char a)) (case_variants s') ++
      map (String (upper_char a)) (case_variants s')
  end.

(** ** A small engine, to run the program on concrete inputs

    The specification is unit; a file parses when it is empty or
    starts with an opening bracket.  The build creates its output
    directory and writes the given files below it; each step can be told
    to raise.  Of the Unicode tables the engine knows one entry, the long
    s (U+017F), which folds to "s". *)

Module Toy.

Record Behaviour : Type := {
  deps_error : option Exn;
  artifacts : list (string * list Byte.byte);
  build_error : option Exn;
  perms_error : option Exn;
}.

Definition well : Behaviour :=
  {| deps_error := None; artifacts := []; build_error := None;
     perms_error := None |}.

Definition write_files (dir : string)
    (arts : list (string * list Byte.byte)) (fs : FS) : FS :=
  {| fs_dirs := {[dir]} ∪ fs_dirs fs;
     fs_files :=
       fold_right (fun kv m => <[Path.join dir kv.1 := kv.2]> m) (fs_files fs) arts;
     fs_readonly := fs_readonly fs |}.

Definition fail_or {A} (e : option Exn) (a : A) (fs : FS) : Outcome A * FS :=
  match e with
  | Some e => (Raise e, fs)
  | None => (Ok a, fs)
  end.

Definition engine (b : Behaviour) : Collaborators :=
  {| Spec := unit;
     Bundle := unit;
     empty_spec := tt;
     parse_ini := fun data =>
       match data with
       | [] => Ok tt
       | Byte.x5b :: _ => Ok tt
       | _ => Raise (Exception "MissingSectionHeaderError")
       end;
     NativeBundle := fun _ fs => (Ok tt, fs);
     check_runtime_dependencies := fun _ fs => fail_or (deps_error b) tt fs;
     write_distributables := fun _ dir _ fs =>
       fail_or (build_error b) (map (fun kv => Path.join dir kv.1) (artifacts b))
               (write_files dir (artifacts b) fs);
     fix_tree_perms := fun d fs =>
       fail_or (perms_error b) tt
         {| fs_dirs := fs_dirs fs;
            fs_files := fs_files fs;
            fs_readonly := filter (fun p => Path.under d p = false) (fs_readonly fs) |};
     casefold_nonascii := fun run => if String.eqb run "ſ" then "s" else run |}.

(** A machine with a home directory and [/tmp]. *)
Definition fs0 : FS :=
  {| fs_dirs := {[ "/tmp"; "/home/u" ]};
     fs_files := {[ "/home/u/app.cfg" := [Byte.x5b; Byte.x61; Byte.x5d];
                    "/home/u/bad.cfg" := [Byte.x61; Byte.x3d; Byte.x31] ]};
     fs_readonly := ∅ |}.

Definition world0 : World :=
  {| w_fs := fs0; w_cwd := "/home/u"; w_tmpdir := "/tmp";
     w_names := ["k3x9"; "q7ab"];
     w_root := {| handlers := []; level := WARNING |};
     w_trace := [] |}.

(** The same machine, with a write-protected [app.zip] in the home
    directory already. *)
Definition fs_locked : FS :=
  {| fs_dirs := fs_dirs fs0;
     fs_files := <["/home/u/app.zip" := [Byte.x00]]> (fs_files fs0);
     fs_readonly := {[ "/home/u/app.zip" ]} |}.

Definition world_locked : World := set_fs fs_locked world0.

Definition two_artifacts : Behaviour :=
  {| deps_error := None;
     artifacts := [("app.exe", [Byte.x01]); ("app.zip", [Byte.x02])];
     build_error := None;
     perms_error := None |}.

End Toy.

(* ================================================================== *)
(** * Proofs *)

(** ** Facts about strings *)

Lemma str_app_nil_r (s : string) : s +:+ "" = s.
Proof. induction s as [|a s IH]; simpl; [done | by rewrite IH]. Qed.

Lemma str_app_assoc (a b c : string) : (a +:+ b) +:+ c = a +:+ (b +:+ c).
Proof. induction a as [|x a IH]; simpl; [done | by rewrite IH]. Qed.

Lemma str_app_length (a b : string) :
  String.length (a +:+ b) = (String.length a + String.length b)%nat.
Proof. induction a as [|x a IH]; simpl; [done | by rewrite IH]. Qed.

Lemma str_app_inv_head (a b c : string) : a +:+ b = a +:+ c -> b = c.
Proof. induction a as [|x a IH]; simpl; [done | intros [= H]; auto]. Qed.

(** ** The matcher *)

(** A match is a prefix of the text it was found in. *)
Lemma match_here_split (p : pattern) (s m rest : string) :
  match_here p s = Some (m, rest) -> s = m +:+ rest.
Proof.
  revert s m rest. induction p as [|[c|c|cls] p IH]; intros s m rest.
  - simpl. by intros [= <- <-].
  - destruct s as [|a s]; simpl; [done |].
    destruct (Ascii.eqb a c); [| done].
    destruct (match_here p s) as [[m' r']|] eqn:E; simpl; [| done].
    intros [= <- <-]. simpl. f_equal. by apply IH.
  - destruct s as [|a s]; simpl; [by apply IH |].
    destruct (Ascii.eqb a c); [| by apply IH].
    destruct (match_here p s) as [[m' r']|] eqn:E; simpl; [| by apply IH].
    intros [= <- <-]. simpl. f_equal. by apply IH.
  - revert m rest. induction s as [|a s IHs]; intros m rest; simpl; [by apply IH |].
    destruct (cls a); [| by apply IH].
    match goal with |- or_else (consume a ?t) _ = _ -> _ => destruct t as [[m' r']|] eqn:E end;
      simpl; [| by apply IH].
    intros [= <- <-]. simpl. f_equal. by apply IHs.
Qed.

Lemma match_chr_last (c a : ascii) (s : string) :
  match_here [Chr c] (String a s) =
    if Ascii.eqb a c then Some (String a "", s) else None.
Proof. reflexivity. Qed.

(** ** The substitution never runs out of fuel *)

Lemma sub_fuel_enough (p : pattern) (repl : string -> string) :
  forall (f1 f2 : nat) (s : string),
    (String.length s < f1)%nat -> (String.length s < f2)%nat ->
    sub_fuel f1 p repl s = sub_fuel f2 p repl s.
Proof.
  induction f1 as [|f1 IH]; intros [|f2] s H1 H2; try lia.
  simpl. destruct (match_here p s) as [[[|a m] rest]|] eqn:E.
  - destruct s as [|b s]; [done |]. simpl in H1, H2.
    do 2 f_equal. apply IH; lia.
  - apply match_here_split in E. subst s.
    rewrite str_app_length in H1, H2. simpl in H1, H2.
    f_equal. apply IH; lia.
  - destruct s as [|b s]; [done |]. simpl in H1, H2.
    f_equal. apply IH; lia.
Qed.

Lemma re_sub_nil (p : pattern) (repl : string -> string) :
  match_here p "" = None -> re_sub p repl "" = "".
Proof. unfold re_sub. simpl. by intros ->. Qed.

Lemma re_sub_hit (p : pattern) (repl : string -> string) (s m rest : string) :
  match_here p s = Some (m, rest) -> m <> "" ->
  re_sub p repl s = repl m +:+ re_sub p repl rest.
Proof.
  intros E Hm. unfold re_sub at 1. cbn [sub_fuel]. rewrite E.
  destruct m as [|a m]; [done |]. f_equal.
  unfold re_sub. apply sub_fuel_enough; [| lia].
  apply match_here_split in E. subst s.
  rewrite str_app_length. simpl. lia.
Qed.

Lemma re_sub_miss (p : pattern) (repl : string -> string) (a : ascii) (s : string) :
  match_here p (String a s) = None ->
  re_sub p repl (String a s) = String a (re_sub p repl s).
Proof.
  intros E. unfold re_sub at 1. cbn [sub_fuel String.length]. by rewrite E.
Qed.

(** ** The four patterns match exactly the placeholders *)

Section NumericPattern.

Import ColorFormatter.

Variable c : ascii.
Hypothesis c_not_plus : c <> "+"%char.
Hypothesis c_not_digit : digit_or_dot c = false.

Let tail : pattern := [StarSet digit_or_dot; Chr c].
Let num_re : pattern := Chr "%" :: OptChr "+" :: tail.

Lemma tail_unfold (a : ascii) (s : string) :
  match_here tail (String a s) =
    if digit_or_dot a
    then or_else (consume a (match_here tail s)) (match_here [Chr c] (String a s))
    else match_here [Chr c] (String a s).
Proof. reflexivity. Qed.

Lemma tail_complete (digits rest : string) :
  Str.all digit_or_dot digits = true ->
  match_here tail (digits +:+ String c rest) = Some (digits +:+ String c "", rest).
Proof.
  induction digits as [|a d IH]; intros Hd.
  - simpl String.append. rewrite tail_unfold, c_not_digit.
    simpl. by rewrite Ascii.eqb_refl.
  - simpl in Hd. apply andb_prop in Hd as [Ha Hd].
    simpl String.append. rewrite tail_unfold, Ha, (IH Hd). done.
Qed.

Lemma tail_sound (s m rest : string) :
  match_here tail s = Some (m, rest) ->
  exists digits, m = digits +:+ String c "" /\ Str.all digit_or_dot digits = true.
Proof.
  revert m rest. induction s as [|a s IH]; intros m rest; [done |].
  rewrite tail_unfold.
  assert (Hlit : match_here [Chr c] (String a s) = Some (m, rest) ->
                 exists digits, m = digits +:+ String c "" /\
                                Str.all digit_or_dot digits = true).
  { simpl. destruct (Ascii.eqb a c) eqn:Eac; [| done].
    apply Ascii.eqb_eq in Eac as ->. intros [= <- <-]. by exists "". }
  destruct (digit_or_dot a) eqn:Ha; [| done].
  destruct (match_here tail s) as [[m' r']|] eqn:E; simpl or_else; [| done].
  intros [= <- <-]. destruct (IH _ _ eq_refl) as (d & -> & Hd).
  exists (String a d). split; [done |]. simpl. by rewrite Ha.
Qed.

Lemma plus_not_digit : digit_or_dot "+" = false.
Proof. reflexivity. Qed.

Lemma num_re_unfold (s : string) :
  match_here num_re (String "%" s) =
    consume "%" (match_here (OptChr "+" :: tail) s).
Proof. reflexivity. Qed.

Lemma opt_unfold (a : ascii) (s : string) :
  match_here (OptChr "+" :: tail) (String a s) =
    if Ascii.eqb a "+"
    then or_else (consume a (match_here tail s)) (match_here tail (String a s))
    else match_here tail (String a s).
Proof. reflexivity. Qed.

Lemma numeric_complete (m rest : string) :
  numeric_placeholder c m -> match_here num_re (m +:+ rest) = Some (m, rest).
Proof.
  intros (sign & digits & -> & Hsign & Hd).
  pose proof (tail_complete digits rest Hd) as Ht.
  destruct Hsign as [-> | ->]; simpl String.append;
    rewrite str_app_assoc; simpl String.append; rewrite num_re_unfold.
  - destruct digits as [|a d]; simpl String.append in *; rewrite opt_unfold.
    + destruct (Ascii.eqb c "+") eqn:E.
      { apply Ascii.eqb_eq in E. done. }
      by rewrite Ht.
    + destruct (Ascii.eqb a "+") eqn:E.
      { apply Ascii.eqb_eq in E as ->. simpl in Hd. done. }
      by rewrite Ht.
  - rewrite opt_unfold, Ascii.eqb_refl, Ht. done.
Qed.

Lemma numeric_sound (s m rest : string) :
  match_here num_re s = Some (m, rest) -> numeric_placeholder c m.
Proof.
  destruct s as [|a s]; [done |].
  destruct (Ascii.eqb a "%") eqn:Ea; [| by simpl; rewrite Ea].
  apply Ascii.eqb_eq in Ea as ->. rewrite num_re_unfold.
  assert (Hno : forall s' m' r', match_here tail s' = Some (m', r') ->
                forall pre, pre = "" \/ pre = "+" ->
                numeric_placeholder c ("%" +:+ pre +:+ m')).
  { intros s' m' r' E pre Hpre. destruct (tail_sound _ _ _ E) as (d & -> & Hd).
    by exists pre, d. }
  destruct s as [|b s].
  - change (match_here (OptChr "+" :: tail) "") with (match_here tail "").
    destruct (match_here tail "") as [[m' r']|] eqn:E; [| done].
    simpl. intros [= <- <-]. apply (Hno _ _ _ E ""). by left.
  - rewrite opt_unfold. destruct (Ascii.eqb b "+") eqn:Eb.
    + apply Ascii.eqb_eq in Eb as ->.
      destruct (match_here tail s) as [[m' r']|] eqn:E; cbn [consume or_else].
      * intros [= <- <-]. apply (Hno _ _ _ E "+"). by right.
      * rewrite tail_unfold, plus_not_digit, match_chr_last.
        destruct (Ascii.eqb "+" c) eqn:E'; [| done].
        apply Ascii.eqb_eq in E'. by subst c.
    + destruct (match_here tail (String b s)) as [[m' r']|] eqn:E; simpl; [| done].
      intros [= <- <-]. apply (Hno _ _ _ E ""). by left.
Qed.

End NumericPattern.

Lemma literal_sound (c : ascii) (s m rest : string) :
  match_here [Chr "%"; Chr c] s = Some (m, rest) -> m = String "%" (String c "").
Proof.
  destruct s as [|a [|b s]]; simpl; [done | by destruct (Ascii.eqb a "%") |].
  destruct (Ascii.eqb a "%") eqn:Ea; [| done].
  destruct (Ascii.eqb b c) eqn:Eb; [| done].
  apply Ascii.eqb_eq in Ea as ->. apply Ascii.eqb_eq in Eb as ->.
  by intros [= <- <-].
Qed.

Lemma literal_complete (c : ascii) (rest : string) :
  match_here [Chr "%"; Chr c] (String "%" (String c rest)) =
    Some (String "%" (String c ""), rest).
Proof. simpl. by rewrite Ascii.eqb_refl. Qed.

Lemma match_sound (k : kind) (s m rest : string) :
  match_here (regex_of k) s = Some (m, rest) -> is_placeholder k m.
Proof.
  destruct k; simpl.
  - apply literal_sound.
  - apply literal_sound.
  - by apply numeric_sound.
  - by apply numeric_sound.
Qed.

Lemma match_complete (k : kind) (m rest : string) :
  is_placeholder k m -> match_here (regex_of k) (m +:+ rest) = Some (m, rest).
Proof.
  destruct k; simpl.
  - intros ->. apply literal_complete.
  - intros ->. apply literal_complete.
  - by apply numeric_complete.
  - by apply numeric_complete.
Qed.

Lemma placeholder_nonempty (k : kind) (m : string) : is_placeholder k m -> m <> "".
Proof.
  destruct k; simpl; try by intros ->.
  all: by intros (sg & d & -> & _ & _).
Qed.

Lemma match_empty (k : kind) : match_here (regex_of k) "" = None.
Proof. by destruct k. Qed.

(** ** Substitution wraps every placeholder of its kind *)

Lemma re_sub_wrapped (k : kind) (s : string) :
  Wrapped k s (re_sub (regex_of k) ColorFormatter.replace_bold s).
Proof.
  remember (String.length s) as n eqn:Hn.
  revert s Hn. induction n as [n IH] using lt_wf_ind. intros s ->.
  destruct (match_here (regex_of k) s) as [[m rest]|] eqn:E.
  - pose proof (match_sound _ _ _ _ E) as Hp.
    pose proof (match_here_split _ _ _ _ E) as Hs.
    pose proof (placeholder_nonempty _ _ Hp) as Hm.
    rewrite (re_sub_hit _ _ _ _ _ E Hm).
    unfold ColorFormatter.replace_bold. rewrite !str_app_assoc.
    eapply W_hit; [exact Hs | exact Hp |].
    eapply IH; [| reflexivity]. subst s. rewrite str_app_length.
    destruct m; [done | simpl; lia].
  - destruct s as [|a s].
    + rewrite re_sub_nil by done. constructor.
    + rewrite re_sub_miss by done. apply W_skip.
      * intros m rest Hs Hp. apply (match_complete _ _ rest) in Hp.
        rewrite <- Hs in Hp. congruence.
      * eapply IH; [| reflexivity]. simpl. lia.
Qed.

Lemma Wrapped_functional (k : kind) (s o1 o2 : string) :
  Wrapped k s o1 -> Wrapped k s o2 -> o1 = o2.
Proof.
  intros H1. revert o2. induction H1 as [|a s out Hno H1 IH|s m rest out Hs Hp H1 IH];
    intros o2 H2.
  - inversion H2 as [| |s' m' rest' out' Hs' Hp' H2']; subst; [done |].
    apply placeholder_nonempty in Hp'. by destruct m'.
  - inversion H2 as [|a' s' out' Hno' H2'|s' m' rest' out' Hs' Hp' H2']; subst.
    + f_equal. by apply IH.
    + by destruct (Hno _ _ Hs').
  - subst s.
    inversion H2 as [Hnil|a' s' out' Hno' H2' Hcons|s' m' rest' out' Hs' Hp' H2']; subst.
    + apply placeholder_nonempty in Hp. by destruct m.
    + by destruct (Hno' _ _ Hcons).
    + pose proof (match_complete _ _ rest Hp) as E1.
      pose proof (match_complete _ _ rest' Hp') as E2.
      rewrite Hs' in E1. rewrite E1 in E2. injection E2 as <- <-.
      do 3 f_equal. by apply IH.
Qed.

(** The example of the specification. *)
Example found_packages :
  ColorFormatter.highlight "found %d packages" =
    "found " +:+ ColorFormatter.BOLD +:+ "%d" +:+ ColorFormatter.BOLDOFF +:+ " packages".
Proof. reflexivity. Qed.

(** C8.  With color enabled, [ColorFormatter.format] rewrites the message
    in four passes, in the fixed order generic value, string, integer,
    float: each pass wraps every placeholder of its kind in a bold
    start/stop pair and works on the output of the pass before it; the
    result is determined by the message alone. *)
Theorem format_highlights_in_kind_order (record : ColorFormatter.LogRecord) (out : string) :
  Highlighted (ColorFormatter.msg record) out <->
  out = ColorFormatter.msg (ColorFormatter.format_record record).
Proof.
  simpl. generalize (ColorFormatter.msg record). intros msg. split.
  - intros (m1 & m2 & m3 & H1 & H2 & H3 & H4).
    pose proof (Wrapped_functional _ _ _ _ H1 (re_sub_wrapped KRepr msg)) as ->.
    pose proof (Wrapped_functional _ _ _ _ H2 (re_sub_wrapped KStr _)) as ->.
    pose proof (Wrapped_functional _ _ _ _ H3 (re_sub_wrapped KInt _)) as ->.
    exact (Wrapped_functional _ _ _ _ H4 (re_sub_wrapped KFloat _)).
  - intros ->. unfold ColorFormatter.highlight. simpl.
    eexists _, _, _. repeat split; apply re_sub_wrapped.
Qed.


(** ** Properties that every step preserves

    [R] relates the world before a step to the world after it.  When
    [R] is reflexive and transitive, holds across changes of the file
    system and of the name supply, and across the recording of the events
    in [allowed], it holds across [process_spec_file]. *)

Section Preserved.

Variable R : World -> World -> Prop.
Variable allowed : Event -> Prop.
Hypothesis R_refl : forall w, R w w.
Hypothesis R_trans : forall w1 w2 w3, R w1 w2 -> R w2 w3 -> R w1 w3.
Hypothesis R_fs : forall w fs, R w (set_fs fs w).
Hypothesis R_names : forall w ns, R w (set_names ns w).
Hypothesis R_record : forall w e, allowed e -> R w (record e w).

Definition keeps {A} (m : M A) : Prop := forall w, R w (m w).2.

Lemma keeps_ret {A} (a : A) : keeps (mret a : M A).
Proof. intros w. apply R_refl. Qed.

Lemma keeps_raise {A} (e : Exn) : keeps (raise e : M A).
Proof. intros w. apply R_refl. Qed.

Lemma keeps_bind {A B} (m : M A) (k : A -> M B) :
  keeps m -> (forall a, keeps (k a)) -> keeps (m ≫= k).
Proof.
  intros Hm Hk w. unfold mbind, M_bind. specialize (Hm w).
  destruct (m w) as [[a|e] w1]; [| done].
  eapply R_trans; [exact Hm | apply Hk].
Qed.

Lemma keeps_emit (e : Event) : allowed e -> keeps (emit e).
Proof. intros He w. by apply R_record. Qed.

Lemma keeps_call {A} (e : Event) (f : FS -> Outcome A * FS) :
  allowed e -> keeps (call e f).
Proof.
  intros He w. unfold call. destruct (f _) as [r fs'] eqn:E. simpl.
  eapply R_trans; [by apply R_record | apply R_fs].
Qed.

Lemma keeps_try_finally {A} (body : M A) (fin : M unit) :
  keeps body -> keeps fin -> keeps (try_finally body fin).
Proof.
  intros Hb Hf w. unfold try_finally. specialize (Hb w).
  destruct (body w) as [r w1]. specialize (Hf w1).
  destruct (fin w1) as [[[]|e] w2]; by eapply R_trans.
Qed.

Lemma keeps_try_except {A} (body handler : M A) :
  keeps body -> keeps handler -> keeps (try_except body handler).
Proof.
  intros Hb Hh w. unfold try_except. specialize (Hb w).
  destruct (body w) as [[a|e] w1]; [done |].
  destruct (is_Exception e); [| done].
  eapply R_trans; [exact Hb | apply Hh].
Qed.

Lemma keeps_for_each {A} (xs : list A) (body : A -> M unit) :
  (forall x, keeps (body x)) -> keeps (for_each xs body).
Proof.
  intros Hb. induction xs as [|x xs IH]; simpl.
  - apply keeps_ret.
  - apply keeps_bind; [apply Hb | by intros _].
Qed.

Lemma keeps_getcwd : allowed EGetcwd -> keeps os_getcwd.
Proof.
  intros He w. unfold os_getcwd. destruct (isdir _ _); by apply R_record.
Qed.

Lemma keeps_mkdtemp (pfx : string) :
  allowed (EMkdtemp pfx) -> keeps (tempfile_mkdtemp pfx).
Proof.
  intros He w. unfold tempfile_mkdtemp.
  destruct (mkdtemp_from _ _ _ _) as [[r ns] fs]. simpl.
  eapply R_trans; [by apply R_record |].
  eapply R_trans; [apply R_names | apply R_fs].
Qed.

Lemma keeps_read `{C : Collaborators} (spec_file : string) :
  allowed (ERead spec_file) -> keeps (ConfigParser_read spec_file).
Proof.
  intros He w. unfold ConfigParser_read. destruct (_ !! _); by apply R_record.
Qed.

(** What [process_spec_file] records: everything but error entries. *)
Hypothesis allowed_quiet : forall e, is_log ERROR e = false -> allowed e.

Lemma keeps_process_spec_file `{C : Collaborators} (spec : Spec) (options : Options) :
  keeps (process_spec_file spec options).
Proof.
  unfold process_spec_file, build_and_copy, cleanup, logger_warning, logger_info.
  repeat first
    [ apply keeps_bind; [| intros ?]
    | apply keeps_try_finally
    | apply keeps_for_each; intros ?
    | match goal with |- keeps (if ?b then _ else _) => destruct b end
    | apply keeps_ret
    | apply keeps_getcwd; by apply allowed_quiet
    | apply keeps_mkdtemp; by apply allowed_quiet
    | apply keeps_call; by apply allowed_quiet
    | apply keeps_emit; by apply allowed_quiet ].
Qed.

End Preserved.

(** No step of the loop touches the working directory, the temporary
    directory or the root logger. *)
Lemma frame_refl (w : World) : frame w w.
Proof. by repeat split. Qed.

Lemma frame_trans (w1 w2 w3 : World) : frame w1 w2 -> frame w2 w3 -> frame w1 w3.
Proof. unfold frame. intros (? & ? & ?) (? & ? & ?). repeat split; congruence. Qed.

Lemma frames_process_one `{C : Collaborators} (options : Options) (spec_file : string) :
  keeps frame (process_one options spec_file).
Proof.
  assert (Hfs : forall w fs, frame w (set_fs fs w)) by (by repeat split).
  assert (Hns : forall w ns, frame w (set_names ns w)) by (by repeat split).
  assert (Hrec : forall w e, True -> frame w (record e w)) by (by repeat split).
  unfold process_one, logger_exception, sys_exit.
  repeat first
    [ exact frame_refl | exact frame_trans | exact Hfs | exact Hns | exact Hrec
    | done
    | eapply keeps_process_spec_file with (allowed := fun _ => True)
    | eapply keeps_read with (allowed := fun _ => True)
    | eapply keeps_emit with (allowed := fun _ => True)
    | eapply keeps_raise
    | eapply keeps_try_except
    | eapply keeps_bind; [| | intros ?] ].
Qed.


Lemma count_log_app (l : Z) (t1 t2 : list Event) :
  count_log l (t1 ++ t2) = (count_log l t1 + count_log l t2)%nat.
Proof. unfold count_log. by rewrite filter_app, length_app. Qed.

Lemma count_log_record (l : Z) (e : Event) (w : World) :
  count_log l (w_trace (record e w)) =
    (count_log l (w_trace w) + if is_log l e then 1 else 0)%nat.
Proof.
  simpl. rewrite count_log_app. f_equal. unfold count_log.
  rewrite filter_cons, filter_nil.
  destruct (decide (is_log l e = true)) as [E|E].
  - by rewrite E.
  - by apply not_true_is_false in E as ->.
Qed.

Lemma same_errors_process_spec_file `{C : Collaborators} (spec : Spec)
    (options : Options) :
  keeps same_errors (process_spec_file spec options).
Proof.
  apply (keeps_process_spec_file _ (fun e => is_log ERROR e = false)); try done.
  - unfold same_errors. intros w1 w2 w3 H1 H2. congruence.
  - intros w e He. unfold same_errors. rewrite count_log_record, He. lia.
Qed.

(** ** Logging set-up *)

Lemma casefold_char_inv (a : ascii) :
  a = lower_char (casefold_char a) \/ a = upper_char (casefold_char a).
Proof.
  destruct a as [[] [] [] [] [] [] [] []];
    first [left; reflexivity | right; reflexivity].
Qed.

Lemma casefold_lower_char (a : ascii) : casefold_char (lower_char a) = casefold_char a.
Proof. by destruct a as [[] [] [] [] [] [] [] []]. Qed.

Lemma casefold_upper_char (a : ascii) : casefold_char (upper_char a) = casefold_char a.
Proof. by destruct a as [[] [] [] [] [] [] [] []]. Qed.

Lemma casefold_variant (s t : string) :
  s ∈ case_variants t -> ascii_lower s = ascii_lower t.
Proof.
  revert s. induction t as [|b t IH]; intros s; simpl.
  - by intros ->%list_elem_of_singleton.
  - intros [H|H]%elem_of_app; apply list_elem_of_fmap in H as (s' & -> & Hs');
      simpl; rewrite (IH _ Hs'); f_equal;
      [apply casefold_lower_char | apply casefold_upper_char].
Qed.

Lemma variant_casefold (s t : string) : ascii_lower s = t -> s ∈ case_variants t.
Proof.
  revert t. induction s as [|a s IH]; intros t <-; simpl.
  - apply list_elem_of_singleton. done.
  - apply elem_of_app.
    destruct (casefold_char_inv a) as [Ha|Ha]; [left | right];
      apply list_elem_of_fmap; exists s; (split; [by rewrite <- Ha | by apply IH]).
Qed.

(** On ASCII text the tables are not consulted. *)
Lemma casefold_ascii `{C : Collaborators} (s : string) :
  Str.all is_ascii s = true -> casefold s = ascii_lower s.
Proof.
  unfold casefold. induction s as [|a s IH]; [done |].
  cbn [Str.all casefold_from ascii_lower].
  intros [Ha Hs]%andb_true_iff. rewrite Ha. cbn. by rewrite IH.
Qed.

Lemma variant_is_ascii (s t : string) :
  Str.all is_ascii t = true -> s ∈ case_variants t -> Str.all is_ascii s = true.
Proof.
  revert s. induction t as [|b t IH]; intros s; simpl.
  - by intros _ ->%list_elem_of_singleton.
  - intros [Hb Ht]%andb_true_iff.
    intros [H|H]%elem_of_app; apply list_elem_of_fmap in H as (s' & -> & Hs');
      simpl; rewrite (IH _ Ht Hs'), andb_true_r; revert Hb;
      by destruct b as [[] [] [] [] [] [] [] []].
Qed.

(** A spelling of an ASCII word folds to what the word folds to. *)
Lemma casefold_spelling `{C : Collaborators} (s t : string) :
  Str.all is_ascii t = true -> s ∈ case_variants t -> casefold s = casefold t.
Proof.
  intros Ht Hs. rewrite !casefold_ascii by eauto using variant_is_ascii.
  by apply casefold_variant.
Qed.

Lemma colourize_lookup `{C : Collaborators} (options : Options) (isatty : bool) :
  colourize options isatty =
    if String.eqb (casefold (colour options)) "no" then false
    else if String.eqb (casefold (colour options)) "yes" then true
    else isatty.
Proof.
  unfold colourize.
  change (casefold "no") with "no". change (casefold "yes") with "yes".
  destruct (String.eqb_spec (casefold (colour options)) "no") as [->|Hno]; [done |].
  rewrite lookup_insert_ne by done.
  destruct (String.eqb_spec (casefold (colour options)) "yes") as [->|Hyes]; [done |].
  rewrite lookup_insert_ne by done. done.
Qed.

Lemma main_root `{C : Collaborators} (options : Options) (args : list string)
    (isatty : bool) (w : World) :
  args <> [] ->
  w_root (main options args isatty w).2 =
    {| handlers := handlers (w_root w) ++ [console_formatter options isatty];
       level := loglevel options |}.
Proof.
  intros Hargs. unfold main.
  destruct args as [|a args]; [done |]. cbn [length Nat.eqb].
  unfold mbind at 1 2, M_bind, mret, M_ret, init_logging.
  match goal with |- w_root (for_each ?xs ?b ?w0).2 = _ =>
    destruct (keeps_for_each frame frame_refl frame_trans xs b
                (frames_process_one options) w0) as (-> & _)
  end.
  done.
Qed.

(** C9.  [main] decides colour from the [--colour] value without regard
    to letter case: a spelling of "yes" turns it on, a spelling of "no"
    turns it off, and so does every value that [str.casefold] folds to
    the same text (a letter outside ASCII can fold to an ASCII letter);
    every other value gives the automatic behaviour, the colour formatter
    being installed exactly when the error stream is a terminal: any
    spelling of "auto", an unknown word such as "always", and every ASCII
    value that is not a spelling of "yes" or of "no". *)
Theorem colour_decided_case_insensitively `{C : Collaborators}
    (options : Options) (isatty : bool) :
  (colour options ∈ case_variants "yes" -> colourize options isatty = true) /\
  (colour options ∈ case_variants "no" -> colourize options isatty = false) /\
  (colour options ∈ case_variants "auto" \/ colour options = "always" ->
   colourize options isatty = isatty) /\
  (casefold (colour options) = casefold "yes" -> colourize options isatty = true) /\
  (casefold (colour options) = casefold "no" -> colourize options isatty = false) /\
  (casefold (colour options) <> casefold "yes" ->
   casefold (colour options) <> casefold "no" ->
   colourize options isatty = isatty /\
   forall (args : list string) (w : World), args <> [] ->
     handlers (w_root (main options args isatty w).2) =
       (handlers (w_root w) ++
        [if isatty
         then ColorFormatter_
                "%(levelCol)s%(levelname)s: %(bold)s%(name)s%(boldOff)s: %(message)s%(reset)s"
         else PlainFormatter "%(levelname)s: %(name)s: %(message)s"])%list) /\
  (Str.all is_ascii (colour options) = true ->
   (casefold (colour options) = casefold "yes" <-> colour options ∈ case_variants "yes") /\
   (casefold (colour options) = casefold "no" <-> colour options ∈ case_variants "no") /\
   (colour options ∉ case_variants "yes" -> colour options ∉ case_variants "no" ->
    colourize options isatty = isatty)).
Proof.
  rewrite colourize_lookup.
  change (casefold "yes") with "yes". change (casefold "no") with "no".
  assert (Hother : casefold (colour options) <> "yes" ->
                   casefold (colour options) <> "no" ->
                   (if String.eqb (casefold (colour options)) "no" then false
                    else if String.eqb (casefold (colour options)) "yes" then true
                    else isatty) = isatty).
  { intros Hyes Hno.
    destruct (String.eqb_spec (casefold (colour options)) "no") as [E|_]; [done |].
    by destruct (String.eqb_spec (casefold (colour options)) "yes") as [E|_]. }
  assert (Hword : forall t, Str.all is_ascii t = true ->
            colour options ∈ case_variants t -> casefold (colour options) = casefold t).
  { intros t Ht Hin. by apply casefold_spelling. }
  repeat apply conj.
  - intros H%(Hword "yes"); [| done]. by rewrite H.
  - intros H%(Hword "no"); [| done]. by rewrite H.
  - intros [H%(Hword "auto") | ->]; [by rewrite H | done | done].
  - by intros ->.
  - by intros ->.
  - intros Hyes Hno. split; [by apply Hother |].
    intros args w Hargs. rewrite main_root by done. simpl.
    unfold console_formatter. rewrite colourize_lookup, Hother by done. done.
  - intros Hascii. rewrite (casefold_ascii _ Hascii).
    assert (Hiff : forall t, ascii_lower t = t ->
              ascii_lower (colour options) = t <-> colour options ∈ case_variants t).
    { intros t Ht. split; [apply variant_casefold |].
      intros H%casefold_variant. by rewrite H. }
    split; [by apply Hiff |]. split; [by apply Hiff |].
    intros Hyes Hno.
    destruct (String.eqb_spec (ascii_lower (colour options)) "no") as [E|_].
    { by apply Hiff in E. }
    destruct (String.eqb_spec (ascii_lower (colour options)) "yes") as [E|_]; [| done].
    by apply Hiff in E.
Qed.

Lemma colour_decided_case_insensitively_witness :
  @colourize (Toy.engine Toy.well)
    {| quiet := false; debug := false; output_dir := None; pkgdirs := [];
       build_exe := true; build_zip := true; colour := "AuTo" |} false = false
  /\ @colourize (Toy.engine Toy.well)
       {| quiet := false; debug := false; output_dir := None; pkgdirs := [];
          build_exe := true; build_zip := true; colour := "YeS" |} false = true
  /\ @colourize (Toy.engine Toy.well)
       {| quiet := false; debug := false; output_dir := None; pkgdirs := [];
          build_exe := true; build_zip := true; colour := "YEſ" |} false = true
  /\ @colourize (Toy.engine Toy.well)
       {| quiet := false; debug := false; output_dir := None; pkgdirs := [];
          build_exe := true; build_zip := true; colour := "maybe" |} true = true.
Proof.
  repeat apply conj.
  - apply (proj1 (proj2 (proj2
      (@colour_decided_case_insensitively (Toy.engine Toy.well) _ false)))).
    left. vm_compute. repeat first [apply list_elem_of_here | apply list_elem_of_further].
  - apply (proj1 (@colour_decided_case_insensitively (Toy.engine Toy.well) _ false)).
    vm_compute. repeat first [apply list_elem_of_here | apply list_elem_of_further].
  - apply (proj1 (proj2 (proj2 (proj2
      (@colour_decided_case_insensitively (Toy.engine Toy.well) _ false))))).
    vm_compute. reflexivity.
  - apply (proj1 (proj2 (proj2 (proj2 (proj2 (proj2
      (@colour_decided_case_insensitively (Toy.engine Toy.well) _ true))))))).
    + vm_compute. discriminate.
    + vm_compute. discriminate.
Defined.

(** C10.  With both [--quiet] and [--debug], quiet wins: the root
    logger's level after [main] has set up logging is [WARNING], not
    [DEBUG]. *)
Theorem quiet_takes_precedence_over_debug `{C : Collaborators}
    (options : Options) (args : list string) (isatty : bool) (w : World) :
  quiet options = true -> debug options = true -> args <> [] ->
  loglevel options = WARNING /\
  level (w_root (main options args isatty w).2) = WARNING /\
  level (w_root (main options args isatty w).2) <> DEBUG.
Proof.
  intros Hq Hd Hargs. rewrite main_root by done. simpl.
  unfold loglevel. rewrite Hq. done.
Qed.

Lemma quiet_takes_precedence_over_debug_witness :
  level (w_root (@main (Toy.engine Toy.well)
           {| quiet := true; debug := true; output_dir := None; pkgdirs := [];
              build_exe := true; build_zip := true; colour := "auto" |}
           ["/home/u/app.cfg"] false Toy.world0).2) = WARNING.
Proof.
  apply (@quiet_takes_precedence_over_debug (Toy.engine Toy.well));
    [reflexivity | reflexivity | discriminate].
Defined.

(** ** The build lifecycle *)

Lemma mkdtemp_from_ok (tmpdir pfx : string) (names names' : list string)
    (fs fs' : FS) (file : string) :
  mkdtemp_from tmpdir pfx names fs = (Ok file, names', fs') ->
  fs' = mkdir fs file /\ path_exists fs file = false.
Proof.
  induction names as [|n names IH]; simpl; [done |].
  destruct (path_exists fs (Path.join tmpdir (pfx +:+ n))) eqn:E; [exact IH |].
  destruct (isdir fs tmpdir); simpl; [| done].
  destruct (readonly fs tmpdir); [done |].
  by intros [= <- <- <-].
Qed.

Lemma isdir_mkdir (fs : FS) (p : string) : isdir (mkdir fs p) p = true.
Proof. apply bool_decide_eq_true. simpl. set_solver. Qed.

Section Lifecycle.

Context `{C : Collaborators}.

Lemma process_spec_file_ephemeral (spec : Spec) (options : Options) (w w4 : World)
    (b : Bundle) (out tmp : string) :
  ephemeral_start spec options w = Some (b, out, tmp, w4) ->
  process_spec_file spec options w =
    try_finally (build_and_copy b options out tmp) (cleanup tmp) w4.
Proof.
  unfold ephemeral_start, process_spec_file.
  destruct (unset (output_dir options)); simpl; [| done].
  destruct (build_zip options || build_exe options); simpl; [| done].
  unfold mbind, M_bind, mret, M_ret.
  destruct (call ENativeBundle (NativeBundle spec) w) as [[b'|e] w1]; [| done].
  destruct (call ECheckDeps (check_runtime_dependencies b') w1) as [[[]|e] w2]; [| done].
  destruct (os_getcwd w2) as [[out'|e] w3]; [| done].
  destruct (tempfile_mkdtemp "styrene" w3) as [[tmp'|e] w4']; [| done].
  by intros [= <- <- <- <-].
Qed.

Lemma ephemeral_start_dir (spec : Spec) (options : Options) (w w4 : World)
    (b : Bundle) (out tmp : string) :
  ephemeral_start spec options w = Some (b, out, tmp, w4) ->
  isdir (w_fs w4) tmp = true.
Proof.
  unfold ephemeral_start.
  destruct (unset (output_dir options) && _); [| done].
  unfold mbind, M_bind, mret, M_ret.
  destruct (call ENativeBundle (NativeBundle spec) w) as [[b'|e] w1]; [| done].
  destruct (call ECheckDeps (check_runtime_dependencies b') w1) as [[[]|e] w2]; [| done].
  destruct (os_getcwd w2) as [[out'|e] w3]; [| done].
  unfold tempfile_mkdtemp.
  destruct (mkdtemp_from _ _ _ _) as [[[tmp'|e] ns] fs'] eqn:E; [| done].
  intros [= <- <- <- <-]. apply mkdtemp_from_ok in E as [-> _].
  apply isdir_mkdir.
Qed.

(** The [finally] block, step by step. *)
Lemma cleanup_unfold (tmp : string) (w : World) :
  cleanup tmp w =
    let w1 := record (EFixTreePerms tmp)
                (record (ELog INFO "Cleaning up “%s”" [tmp]) w) in
    match fix_tree_perms tmp (w_fs w) with
    | (Raise e, fs') => (Raise e, set_fs fs' w1)
    | (Ok _, fs') =>
        let w2 := record (ERmtree tmp) (set_fs fs' w1) in
        (fst (shutil_rmtree tmp fs'), set_fs (snd (shutil_rmtree tmp fs')) w2)
    end.
Proof.
  unfold cleanup, logger_info, emit, call, mbind, M_bind. simpl.
  destruct (fix_tree_perms tmp (w_fs w)) as [[[]|e] fs']; [| done].
  simpl. by destruct (shutil_rmtree tmp fs').
Qed.

Lemma rmtree_ok (d : string) (fs fs' : FS) :
  shutil_rmtree d fs = (Ok tt, fs') ->
  forall p, Path.under d p = true -> path_exists fs' p = false.
Proof.
  unfold shutil_rmtree. destruct (isdir fs d); simpl; [| done].
  destruct (existsb _ _); [done |]. intros [= <-] p Hp.
  unfold path_exists, isdir, isfile. simpl. apply orb_false_iff. split.
  - apply bool_decide_eq_false. rewrite elem_of_filter. intros [H _]. congruence.
  - destruct (filter _ (fs_files fs) !! p) as [x|] eqn:E; [| done].
    apply map_lookup_filter_Some in E as [_ H]. simpl in H. congruence.
Qed.

End Lifecycle.

(** C1 (as amended).  Once the ephemeral directory has been made, the
    [finally] block is entered however the [try] body ends (normal end,
    exception from [write_distributables], exception from a copy): it
    logs, then calls [fix_tree_perms].  When the block itself does not
    raise, the outcome of the body stands and nothing at or below the
    ephemeral directory exists when [process_spec_file] returns. *)
Theorem ephemeral_dir_removed_when_cleanup_succeeds `{C : Collaborators}
    (spec : Spec) (options : Options) (w w4 : World) (b : Bundle) (out tmp : string) :
  ephemeral_start spec options w = Some (b, out, tmp, w4) ->
  isdir (w_fs w4) tmp = true /\
  (exists rest,
     w_trace (process_spec_file spec options w).2 =
       (w_trace (build_and_copy b options out tmp w4).2 ++
        ELog INFO "Cleaning up “%s”" [tmp] :: EFixTreePerms tmp :: rest)%list) /\
  ((cleanup tmp (build_and_copy b options out tmp w4).2).1 = Ok tt ->
   (process_spec_file spec options w).1 = (build_and_copy b options out tmp w4).1 /\
   forall p, Path.under tmp p = true ->
     path_exists (w_fs (process_spec_file spec options w).2) p = false).
Proof.
  intros Hstart. split; [by eapply ephemeral_start_dir |].
  rewrite (process_spec_file_ephemeral _ _ _ _ _ _ _ Hstart).
  unfold try_finally.
  destruct (build_and_copy b options out tmp w4) as [r w5]. simpl.
  rewrite cleanup_unfold. cbn zeta.
  destruct (fix_tree_perms tmp (w_fs w5)) as [[[]|e] fs'] eqn:Efix.
  - destruct (shutil_rmtree tmp fs') as [[[]|e] fs''] eqn:Erm; simpl.
    + split.
      * exists [ERmtree tmp]. by rewrite <- !app_assoc.
      * intros _. split; [done |]. by eapply rmtree_ok.
    + split; [| done]. exists [ERmtree tmp]. by rewrite <- !app_assoc.
  - simpl. split; [| done]. exists []. by rewrite <- !app_assoc.
Qed.

Lemma ephemeral_dir_removed_when_cleanup_succeeds_witness :
  path_exists
    (w_fs (@process_spec_file
             (Toy.engine {| Toy.deps_error := None;
                            Toy.artifacts := [("app.exe", [Byte.x01])];
                            Toy.build_error := Some (Exception "BuildError");
                            Toy.perms_error := None |})
             tt default_options Toy.world0).2)
    "/tmp/styrenek3x9" = false.
Proof.
  refine (proj2 (proj2 (proj2
    (@ephemeral_dir_removed_when_cleanup_succeeds
       (Toy.engine {| Toy.deps_error := None;
                      Toy.artifacts := [("app.exe", [Byte.x01])];
                      Toy.build_error := Some (Exception "BuildError");
                      Toy.perms_error := None |})
       tt default_options Toy.world0 _ tt "/home/u" "/tmp/styrenek3x9" _)) _) _ _).
  - vm_compute. reflexivity.
  - vm_compute. reflexivity.
  - vm_compute. reflexivity.
Defined.

(** C1, as the claim states it, fails: the build and the copy succeed,
    [fix_tree_perms] raises in the [finally] block, [rmtree] is never
    reached and the ephemeral directory is still there on return. *)
Lemma ephemeral_dir_left_behind :
  let engine := Toy.engine {| Toy.deps_error := None;
                              Toy.artifacts := [("app.exe", [Byte.x01])];
                              Toy.build_error := None;
                              Toy.perms_error := Some (Exception "PermissionError") |} in
  let res := @process_spec_file engine tt default_options Toy.world0 in
  (exists w4, @ephemeral_start engine tt default_options Toy.world0 =
                Some (tt, "/home/u", "/tmp/styrenek3x9", w4)) /\
  res.1 = Raise (Exception "PermissionError") /\
  isdir (w_fs res.2) "/tmp/styrenek3x9" = true /\
  isfile (w_fs res.2) "/tmp/styrenek3x9/app.exe" = true.
Proof.
  cbv zeta. split; [eexists; vm_compute; reflexivity |].
  repeat split; vm_compute; reflexivity.
Qed.

(** C2 (as amended).  An exception raised in the [finally] block by
    [fix_tree_perms] or by [rmtree] leaves [process_spec_file] in place of
    whatever the [try] body had raised or returned.  [process_spec_file]
    writes no error entry about it.  When [fix_tree_perms] raises,
    [rmtree] is not called; when [fix_tree_perms] returns, [rmtree] is
    called once.  Under the handler of [main], an [Exception] from the
    cleanup ends the process with status 2, as one from the build does. *)
Theorem cleanup_error_replaces_outcome `{C : Collaborators}
    (spec : Spec) (options : Options) (w w4 : World) (b : Bundle) (out tmp : string)
    (e : Exn) :
  ephemeral_start spec options w = Some (b, out, tmp, w4) ->
  (cleanup tmp (build_and_copy b options out tmp w4).2).1 = Raise e ->
  (process_spec_file spec options w).1 = Raise e /\
  count_log ERROR (w_trace (process_spec_file spec options w).2) =
    count_log ERROR (w_trace w) /\
  match fix_tree_perms tmp (w_fs (build_and_copy b options out tmp w4).2) with
  | (Raise e', fs') =>
      e' = e /\
      w_trace (process_spec_file spec options w).2 =
        (w_trace (build_and_copy b options out tmp w4).2 ++
         [ELog INFO "Cleaning up “%s”" [tmp]; EFixTreePerms tmp])%list /\
      w_fs (process_spec_file spec options w).2 = fs'
  | (Ok _, fs') =>
      (shutil_rmtree tmp fs').1 = Raise e /\
      w_trace (process_spec_file spec options w).2 =
        (w_trace (build_and_copy b options out tmp w4).2 ++
         [ELog INFO "Cleaning up “%s”" [tmp]; EFixTreePerms tmp; ERmtree tmp])%list
  end /\
  (is_Exception e = true ->
   forall (msg : string) (args : list string),
     exit_status
       (try_except (process_spec_file spec options)
          (logger_exception msg args ;; sys_exit 2%Z) w).1 = 2%Z).
Proof.
  intros Hstart Hfin.
  pose proof (same_errors_process_spec_file spec options w) as Herr.
  unfold same_errors in Herr.
  split; [| split; [exact Herr | split]].
  - rewrite (process_spec_file_ephemeral _ _ _ _ _ _ _ Hstart).
    unfold try_finally.
    destruct (build_and_copy b options out tmp w4) as [r w5]. simpl in *.
    destruct (cleanup tmp w5) as [[[]|e'] w6]; simpl in *; congruence.
  - rewrite (process_spec_file_ephemeral _ _ _ _ _ _ _ Hstart).
    unfold try_finally.
    destruct (build_and_copy b options out tmp w4) as [r w5]. simpl in *.
    rewrite cleanup_unfold in *. cbn zeta in *.
    destruct (fix_tree_perms tmp (w_fs w5)) as [[[]|e'] fs'] eqn:Efix.
    + destruct (shutil_rmtree tmp fs') as [[[]|e'] fs''] eqn:Erm; simpl in *; [done |].
      split; [done |]. by rewrite <- !app_assoc.
    + simpl in *. split; [congruence |]. split; [| done]. by rewrite <- !app_assoc.
  - intros He msg args. unfold try_except.
    assert (Hr : (process_spec_file spec options w).1 = Raise e).
    { rewrite (process_spec_file_ephemeral _ _ _ _ _ _ _ Hstart).
      unfold try_finally.
      destruct (build_and_copy b options out tmp w4) as [r w5]. simpl in *.
      destruct (cleanup tmp w5) as [[[]|e'] w6]; simpl in *; congruence. }
    destruct (process_spec_file spec options w) as [r w']. simpl in Hr. subst r.
    rewrite He. reflexivity.
Qed.

Lemma cleanup_error_replaces_outcome_witness :
  (@process_spec_file
     (Toy.engine {| Toy.deps_error := None;
                    Toy.artifacts := [("app.exe", [Byte.x01])];
                    Toy.build_error := None;
                    Toy.perms_error := Some (Exception "PermissionError") |})
     tt default_options Toy.world0).1 = Raise (Exception "PermissionError").
Proof.
  refine (proj1
    (@cleanup_error_replaces_outcome
       (Toy.engine {| Toy.deps_error := None;
                      Toy.artifacts := [("app.exe", [Byte.x01])];
                      Toy.build_error := None;
                      Toy.perms_error := Some (Exception "PermissionError") |})
       tt default_options Toy.world0 _ tt "/home/u" "/tmp/styrenek3x9" _ _ _)).
  - vm_compute. reflexivity.
  - vm_compute. reflexivity.
Defined.

(** C2, as the claim states it, fails: [write_distributables] raises
    [BuildError]; in the [finally] block [fix_tree_perms] raises
    [PermissionError].  That exception, not the build error, leaves
    [process_spec_file]; [rmtree] is never called, so the deletion is not
    attempted and the directory stays; nothing is logged but the
    "Cleaning up" line. *)
Lemma cleanup_error_masks_build_error :
  let engine := Toy.engine {| Toy.deps_error := None;
                              Toy.artifacts := [("app.exe", [Byte.x01])];
                              Toy.build_error := Some (Exception "BuildError");
                              Toy.perms_error := Some (Exception "PermissionError") |} in
  let res := @process_spec_file engine tt default_options Toy.world0 in
  (exists w4,
     @ephemeral_start engine tt default_options Toy.world0 =
       Some (tt, "/home/u", "/tmp/styrenek3x9", w4) /\
     (@build_and_copy engine tt default_options "/home/u" "/tmp/styrenek3x9" w4).1 =
       Raise (Exception "BuildError")) /\
  res.1 = Raise (Exception "PermissionError") /\
  w_trace res.2 =
    [ENativeBundle; ECheckDeps; EGetcwd; EMkdtemp "styrene";
     EWriteDistributables "/tmp/styrenek3x9";
     ELog INFO "Cleaning up “%s”" ["/tmp/styrenek3x9"];
     EFixTreePerms "/tmp/styrenek3x9"] /\
  isdir (w_fs res.2) "/tmp/styrenek3x9" = true.
Proof.
  cbv zeta. split.
  - eexists. split; vm_compute; reflexivity.
  - repeat split; vm_compute; reflexivity.
Qed.

(** ** The two modes without an ephemeral directory *)

(** C3 (as amended).  With no output directory and neither output
    requested, [process_spec_file] first constructs the bundle and checks
    its runtime dependencies; whatever these do, it makes no temporary
    directory, copies nothing and never calls [write_distributables].
    When both succeed it logs exactly two warnings and returns normally,
    leaving the file system as the dependency check left it. *)
Theorem nothing_to_build `{C : Collaborators} (spec : Spec) (options : Options)
    (w : World) :
  unset (output_dir options) = true ->
  build_zip options = false -> build_exe options = false ->
  (exists evs,
     w_trace (process_spec_file spec options w).2 = (w_trace w ++ evs)%list /\
     evs `prefix_of` [ENativeBundle; ECheckDeps;
                      ELog WARNING warning_1 []; ELog WARNING warning_2 []]) /\
  w_names (process_spec_file spec options w).2 = w_names w /\
  forall (b : Bundle) (fs1 fs2 : FS),
    NativeBundle spec (w_fs w) = (Ok b, fs1) ->
    check_runtime_dependencies b fs1 = (Ok tt, fs2) ->
    (process_spec_file spec options w).1 = Ok tt /\
    w_trace (process_spec_file spec options w).2 =
      (w_trace w ++ [ENativeBundle; ECheckDeps;
                     ELog WARNING warning_1 []; ELog WARNING warning_2 []])%list /\
    count_log WARNING (w_trace (process_spec_file spec options w).2) =
      (count_log WARNING (w_trace w) + 2)%nat /\
    w_fs (process_spec_file spec options w).2 = fs2.
Proof.
  intros Hout Hzip Hexe.
  unfold process_spec_file. rewrite Hout, Hzip, Hexe. simpl.
  unfold mbind, M_bind, mret, M_ret, call, logger_warning, emit. simpl.
  destruct (NativeBundle spec (w_fs w)) as [[b|e] fs1] eqn:Enb; simpl.
  - destruct (check_runtime_dependencies b fs1) as [[[]|e] fs2] eqn:Edep; simpl.
    + split; [| split; [done |]].
      * eexists. split; [by rewrite <- !app_assoc | done].
      * intros b' fs1' fs2' [= <- <-]. rewrite Edep. intros [= <-].
        repeat split; [by rewrite <- !app_assoc |].
        rewrite <- !app_assoc, count_log_app. reflexivity.
    + split; [| split; [done |]].
      * eexists. split; [by rewrite <- !app_assoc |]. by exists [ELog WARNING warning_1 []; ELog WARNING warning_2 []].
      * intros b' fs1' fs2' [= <- <-]. by rewrite Edep.
  - split; [| split; [done | done]].
    eexists. split; [done |]. by eexists.
Qed.

Lemma nothing_to_build_witness :
  (@process_spec_file (Toy.engine Toy.well) tt
     {| quiet := false; debug := false; output_dir := None; pkgdirs := [];
        build_exe := false; build_zip := false; colour := "auto" |}
     Toy.world0).1 = Ok tt.
Proof.
  refine (proj1 (proj2 (proj2
    (@nothing_to_build (Toy.engine Toy.well) tt
       {| quiet := false; debug := false; output_dir := None; pkgdirs := [];
          build_exe := false; build_zip := false; colour := "auto" |}
       Toy.world0 _ _ _)) tt Toy.fs0 Toy.fs0 _ _)); reflexivity.
Defined.

(** C3, as the claim states it, fails: the dependency check comes
    before the test of the options; when it raises, no warning is logged
    and [process_spec_file] does not return normally. *)
Lemma nothing_to_build_but_check_raises :
  let engine := Toy.engine {| Toy.deps_error := Some (Exception "RuntimeError");
                              Toy.artifacts := [];
                              Toy.build_error := None;
                              Toy.perms_error := None |} in
  let options := {| quiet := false; debug := false; output_dir := None; pkgdirs := [];
                    build_exe := false; build_zip := false; colour := "auto" |} in
  let res := @process_spec_file engine tt options Toy.world0 in
  unset (output_dir options) = true /\
  res.1 = Raise (Exception "RuntimeError") /\
  count_log WARNING (w_trace res.2) = 0%nat /\
  w_trace res.2 = [ENativeBundle; ECheckDeps].
Proof. cbv zeta. repeat split; vm_compute; reflexivity. Qed.

(** C7.  With an output directory given, [process_spec_file] calls
    [write_distributables] on that directory and does nothing else after
    the dependency check: no temporary directory, no copy, no deletion;
    its outcome and the file system it leaves are those of that call.
    The directory exists afterwards because the build creates it. *)
Theorem builds_into_output_dir `{C : Collaborators} (spec : Spec) (options : Options)
    (w : World) (d : string) :
  output_dir options = Some d -> d <> "" ->
  (exists evs,
     w_trace (process_spec_file spec options w).2 = (w_trace w ++ evs)%list /\
     evs `prefix_of` [ENativeBundle; ECheckDeps; EWriteDistributables d]) /\
  w_names (process_spec_file spec options w).2 = w_names w /\
  forall (b : Bundle) (fs1 fs2 : FS),
    NativeBundle spec (w_fs w) = (Ok b, fs1) ->
    check_runtime_dependencies b fs1 = (Ok tt, fs2) ->
    w_trace (process_spec_file spec options w).2 =
      (w_trace w ++ [ENativeBundle; ECheckDeps; EWriteDistributables d])%list /\
    (process_spec_file spec options w).1 =
      forget (write_distributables b d options fs2).1 /\
    w_fs (process_spec_file spec options w).2 =
      (write_distributables b d options fs2).2 /\
    (creates_output_dir -> (process_spec_file spec options w).1 = Ok tt ->
     isdir (w_fs (process_spec_file spec options w).2) d = true).
Proof.
  intros Hout Hd.
  unfold process_spec_file. rewrite Hout.
  destruct d as [|a d]; [done |]. simpl.
  unfold mbind, M_bind, mret, M_ret, call. simpl.
  destruct (NativeBundle spec (w_fs w)) as [[b|e] fs1] eqn:Enb; simpl.
  - destruct (check_runtime_dependencies b fs1) as [[[]|e] fs2] eqn:Edep; simpl.
    + pose proof (fun H : creates_output_dir => H b (String a d) options fs2) as Hmk.
      destruct (write_distributables b (String a d) options fs2)
        as [[written|e] fs3] eqn:Ewd; simpl.
      * split; [| split; [done |]].
        { eexists. split; [by rewrite <- !app_assoc | done]. }
        intros b' fs1' fs2' [= <- <-]. rewrite Edep. intros [= <-].
        rewrite Ewd. simpl. repeat split; [by rewrite <- !app_assoc |].
        intros Hc _. by apply Hmk.
      * split; [| split; [done |]].
        { eexists. split; [by rewrite <- !app_assoc | done]. }
        intros b' fs1' fs2' [= <- <-]. rewrite Edep. intros [= <-].
        rewrite Ewd. simpl. repeat split; [by rewrite <- !app_assoc | done].
    + split; [| split; [done |]].
      * eexists. split; [by rewrite <- !app_assoc |].
        by exists [EWriteDistributables (String a d)].
      * intros b' fs1' fs2' [= <- <-]. by rewrite Edep.
  - split; [| split; [done | done]].
    eexists. split; [done |]. by eexists.
Qed.

Lemma builds_into_output_dir_witness :
  isdir
    (w_fs (@process_spec_file
             (Toy.engine {| Toy.deps_error := None;
                            Toy.artifacts := [("app.exe", [Byte.x01])];
                            Toy.build_error := None;
                            Toy.perms_error := None |})
             tt
             {| quiet := false; debug := false; output_dir := Some "/home/u/dist";
                pkgdirs := []; build_exe := true; build_zip := true; colour := "auto" |}
             Toy.world0).2)
    "/home/u/dist" = true.
Proof.
  refine (proj2 (proj2 (proj2 (proj2 (proj2
    (@builds_into_output_dir
       (Toy.engine {| Toy.deps_error := None;
                      Toy.artifacts := [("app.exe", [Byte.x01])];
                      Toy.build_error := None;
                      Toy.perms_error := None |})
       tt
       {| quiet := false; debug := false; output_dir := Some "/home/u/dist";
          pkgdirs := []; build_exe := true; build_zip := true; colour := "auto" |}
       Toy.world0 "/home/u/dist" _ _)) tt Toy.fs0 Toy.fs0 _ _))) _ _).
  - reflexivity.
  - discriminate.
  - reflexivity.
  - reflexivity.
  - intros b d o fs. unfold write_distributables, Toy.engine, Toy.fail_or. simpl.
    apply bool_decide_eq_true. simpl. set_solver.
  - vm_compute. reflexivity.
Defined.

(** ** Copying *)

Lemma shutil_copy_ok (src dst : string) (fs fs' : FS) (t : string) :
  shutil_copy src dst fs = (Ok t, fs') ->
  t = copy_target fs src dst /\ src <> t /\
  fs_dirs fs' = fs_dirs fs /\
  exists data, fs_files fs !! src = Some data /\
               fs_files fs' = <[t := data]> (fs_files fs).
Proof.
  unfold shutil_copy. cbv zeta.
  destruct (fs_files fs !! src) as [data|] eqn:Hsrc; [| by destruct (_ && _)].
  assert (Hex : path_exists fs src = true).
  { unfold path_exists, isfile. rewrite Hsrc. apply orb_true_r. }
  rewrite Hex, andb_true_r.
  destruct (String.eqb_spec src (copy_target fs src dst)) as [|Hne]; [done |].
  destruct (isdir fs (copy_target fs src dst)); [done |].
  destruct (negb (isdir fs (Path.dirname (copy_target fs src dst)))); [done |].
  destruct (_ || _); [done |].
  intros [= <- <-]. simpl. eauto 6.
Qed.

Lemma shutil_copy_raise (src dst : string) (fs fs' : FS) (e : Exn) :
  shutil_copy src dst fs = (Raise e, fs') -> fs' = fs.
Proof.
  unfold shutil_copy. cbv zeta.
  destruct (_ && _); [by intros [= _ <-] |].
  destruct (fs_files fs !! src) as [data|]; [| by intros [= _ <-]].
  destruct (isdir fs (copy_target fs src dst)); [by intros [= _ <-] |].
  destruct (negb (isdir fs (Path.dirname (copy_target fs src dst)))); [by intros [= _ <-] |].
  destruct (_ || _); [by intros [= _ <-] | done].
Qed.


Lemma copy_out_unfold (out a : string) (w : World) :
  copy_out out a w =
    (forget (shutil_copy a (dest out a) (w_fs w)).1,
     set_fs (shutil_copy a (dest out a) (w_fs w)).2 (record (ECopy a (dest out a)) w)).
Proof.
  unfold copy_out, dest, call, mbind, M_bind, mret, M_ret. simpl.
  by destruct (shutil_copy _ _ _) as [[t|e] fs'].
Qed.

Lemma copy_out_ok (out a : string) (w w' : World) :
  copy_out out a w = (Ok tt, w') ->
  let t := copy_target (w_fs w) a (dest out a) in
  a <> t /\ fs_dirs (w_fs w') = fs_dirs (w_fs w) /\
  exists data, fs_files (w_fs w) !! a = Some data /\
               fs_files (w_fs w') = <[t := data]> (fs_files (w_fs w)).
Proof.
  rewrite copy_out_unfold.
  destruct (shutil_copy a (dest out a) (w_fs w)) as [[t|e] fs'] eqn:E; [| done].
  simpl. intros [= <-]. apply shutil_copy_ok in E as (-> & Hne & Hd & data & Hs & Hf).
  simpl. eauto 6.
Qed.

Lemma copy_out_raise (out a : string) (w w' : World) (e : Exn) :
  copy_out out a w = (Raise e, w') -> w_fs w' = w_fs w.
Proof.
  rewrite copy_out_unfold.
  destruct (shutil_copy a (dest out a) (w_fs w)) as [[t|e'] fs'] eqn:E; [done |].
  simpl. intros [= _ <-]. simpl. by apply shutil_copy_raise in E.
Qed.

Lemma for_each_cons {A} (x : A) (xs : list A) (body : A -> M unit) (w : World) :
  for_each (x :: xs) body w =
    match body x w with
    | (Ok _, w1) => for_each xs body w1
    | (Raise e, w1) => (Raise e, w1)
    end.
Proof. reflexivity. Qed.

Lemma for_each_app {A} (xs ys : list A) (body : A -> M unit) (w w1 : World) :
  for_each xs body w = (Ok tt, w1) ->
  for_each (xs ++ ys) body w = for_each ys body w1.
Proof.
  revert w. induction xs as [|x xs IH]; intros w; simpl app.
  - by intros [= <-].
  - rewrite !for_each_cons. destruct (body x w) as [[[]|e] w']; [apply IH | done].
Qed.

Lemma copy_target_dirs (fs fs' : FS) (src dst : string) :
  fs_dirs fs' = fs_dirs fs -> copy_target fs' src dst = copy_target fs src dst.
Proof. intros H. unfold copy_target, isdir. by rewrite H. Qed.

(** The loop leaves the directories alone and removes no file. *)
Lemma copy_loop_grows (out : string) (l : list string) (w w' : World) (r : Outcome unit) :
  for_each l (copy_out out) w = (r, w') ->
  fs_dirs (w_fs w') = fs_dirs (w_fs w) /\
  forall p, isfile (w_fs w) p = true -> isfile (w_fs w') p = true.
Proof.
  revert w. induction l as [|a l IH]; intros w.
  - by intros [= _ <-].
  - rewrite for_each_cons.
    destruct (copy_out out a w) as [[[]|e] w1] eqn:E.
    + intros H. apply IH in H as [Hd Hf].
      apply copy_out_ok in E as (_ & Hd1 & data & _ & Hf1).
      split; [congruence |]. intros p Hp. apply Hf.
      unfold isfile in *. rewrite Hf1.
      destruct (decide (copy_target (w_fs w) a (dest out a) = p)) as [->|Hne].
      * by rewrite lookup_insert_eq.
      * by rewrite lookup_insert_ne.
    + intros [= _ <-]. apply copy_out_raise in E. by rewrite E.
Qed.

(** Every artifact the loop got through is a file at the place the copy
    wrote it. *)
Lemma copy_loop_copied (out : string) (l : list string) (w w' : World) :
  for_each l (copy_out out) w = (Ok tt, w') ->
  forall a, a ∈ l -> isfile (w_fs w') (copy_target (w_fs w) a (dest out a)) = true.
Proof.
  revert w. induction l as [|a l IH]; intros w H x Hx.
  - by apply elem_of_nil in Hx.
  - rewrite for_each_cons in H.
    destruct (copy_out out a w) as [[[]|e] w1] eqn:E; [| done].
    pose proof (copy_out_ok _ _ _ _ E) as (_ & Hd1 & data & _ & Hf1).
    apply elem_of_cons in Hx as [->|Hx].
    + apply (copy_loop_grows _ _ _ _ _ H).
      unfold isfile. by rewrite Hf1, lookup_insert_eq.
    + rewrite <- (copy_target_dirs _ (w_fs w1)) by done. by apply (IH w1).
Qed.

(** The cleanup touches nothing outside the ephemeral directory, as
    long as [fix_tree_perms] only changes permissions. *)
Lemma cleanup_outside `{C : Collaborators} (tmp : string) (w : World) :
  only_permissions ->
  forall p, Path.under tmp p = false ->
    fs_files (w_fs (cleanup tmp w).2) !! p = fs_files (w_fs w) !! p.
Proof.
  intros Hperm p Hp. rewrite cleanup_unfold. cbn zeta.
  destruct (Hperm tmp (w_fs w)) as [_ Hf].
  destruct (fix_tree_perms tmp (w_fs w)) as [[[]|e] fs'] eqn:Efix; simpl in *.
  - unfold shutil_rmtree. destruct (negb (isdir fs' tmp)); simpl; [by rewrite Hf |].
    destruct (existsb _ _); simpl; [by rewrite Hf |].
    rewrite <- Hf.
    destruct (fs_files fs' !! p) as [x|] eqn:E.
    + apply map_lookup_filter_Some. by split.
    + apply map_lookup_filter_None. left. done.
  - by rewrite Hf.
Qed.

Lemma build_and_copy_unfold `{C : Collaborators} (b : Bundle) (options : Options)
    (out tmp : string) (w : World) :
  build_and_copy b options out tmp w =
    match write_distributables b tmp options (w_fs w) with
    | (Ok written, fs') =>
        for_each written (copy_out out)
          (set_fs fs' (record (EWriteDistributables tmp) w))
    | (Raise e, fs') =>
        (Raise e, set_fs fs' (record (EWriteDistributables tmp) w))
    end.
Proof.
  unfold build_and_copy, call, mbind, M_bind. simpl.
  by destruct (write_distributables b tmp options (w_fs w)) as [[written|e] fs'].
Qed.

Lemma try_finally_ok {A} (body : M A) (fin : M unit) (w : World) (a : A) :
  (try_finally body fin w).1 = Ok a ->
  (body w).1 = Ok a /\ (fin (body w).2).1 = Ok tt /\
  (try_finally body fin w).2 = (fin (body w).2).2.
Proof.
  unfold try_finally. destruct (body w) as [r w1]. simpl.
  destruct (fin w1) as [[[]|e] w2]; simpl; [| done]. by intros ->.
Qed.

Lemma try_finally_world {A} (body : M A) (fin : M unit) (w : World) :
  (try_finally body fin w).2 = (fin (body w).2).2.
Proof.
  unfold try_finally. destruct (body w) as [r w1]. simpl.
  by destruct (fin w1) as [[[]|e] w2].
Qed.

(** A loop that ran to its end, with no directory in the way of a
    destination, distinct destinations and no destination that is also a
    source: every destination holds the bytes of its artifact, and no
    other file has changed. *)
Lemma copy_loop_exact (out : string) (l : list string) (w w' : World) :
  for_each l (copy_out out) w = (Ok tt, w') ->
  (forall a, a ∈ l -> isdir (w_fs w) (dest out a) = false) ->
  (forall a a', a ∈ l -> a' ∈ l -> dest out a <> a') ->
  NoDup (map (dest out) l) ->
  (forall a, a ∈ l ->
     is_Some (fs_files (w_fs w) !! a) /\
     fs_files (w_fs w') !! dest out a = fs_files (w_fs w) !! a) /\
  (forall p, p ∉ map (dest out) l ->
     fs_files (w_fs w') !! p = fs_files (w_fs w) !! p).
Proof.
  revert w. induction l as [|a l IH]; intros w Hrun Hnodir Hsrc Hnd.
  - injection Hrun as <-. split; [| done]. intros a Ha. by apply elem_of_nil in Ha.
  - rewrite for_each_cons in Hrun.
    destruct (copy_out out a w) as [[[]|e] w1] eqn:E; [| done].
    pose proof (copy_out_ok _ _ _ _ E) as (_ & Hd1 & data & Hdata & Hf1).
    assert (Ht : copy_target (w_fs w) a (dest out a) = dest out a).
    { unfold copy_target. rewrite Hnodir; [done | by left]. }
    rewrite Ht in Hf1.
    simpl in Hnd. apply NoDup_cons in Hnd as [Hnotin Hnd].
    destruct (IH w1 Hrun) as [IHa IHp].
    { intros x Hx. unfold isdir. rewrite Hd1. apply Hnodir. by right. }
    { intros x y Hx Hy. apply Hsrc; by right. }
    { done. }
    assert (Hkeep : forall x, x ∈ a :: l ->
              fs_files (w_fs w1) !! x = fs_files (w_fs w) !! x).
    { intros x Hx. rewrite Hf1. apply lookup_insert_ne.
      apply Hsrc; [by left | done]. }
    split.
    + intros x Hx. apply elem_of_cons in Hx as [->|Hx].
      * split; [by rewrite Hdata |].
        rewrite IHp by done. by rewrite Hf1, lookup_insert_eq.
      * destruct (IHa x Hx) as [Hs Heq].
        rewrite <- (Hkeep x) by (by right). done.
    + intros p Hp. simpl in Hp. apply not_elem_of_cons in Hp as [Hp1 Hp2].
      rewrite IHp by done. rewrite Hf1. by apply lookup_insert_ne.
Qed.

(** ** Base names and joined paths *)

Lemma has_sep_basename (p : string) : Path.has_sep (Path.basename p) = false.
Proof.
  induction p as [|a p IH]; [done |]. simpl.
  destruct (Path.has_sep p) eqn:Hp; [done |].
  destruct (Path.is_sep a) eqn:Ha; [done |]. simpl. by rewrite Ha, Hp.
Qed.

Lemma starts_with_sep_no_sep (b : string) :
  Path.has_sep b = false -> Path.starts_with_sep b = false.
Proof. destruct b as [|a b]; [done |]. simpl. by intros [? _]%orb_false_iff. Qed.

Lemma join_inj (out b1 b2 : string) :
  Path.has_sep b1 = false -> Path.has_sep b2 = false ->
  Path.join out b1 = Path.join out b2 -> b1 = b2.
Proof.
  intros H1 H2. unfold Path.join.
  rewrite (starts_with_sep_no_sep _ H1), (starts_with_sep_no_sep _ H2).
  destruct (_ || _).
  - apply str_app_inv_head.
  - intros H. apply str_app_inv_head in H. by injection H.
Qed.

Lemma dest_inj (out a1 a2 : string) :
  dest out a1 = dest out a2 -> Path.basename a1 = Path.basename a2.
Proof. apply join_inj; apply has_sep_basename. Qed.

Lemma NoDup_dest (out : string) (l : list string) :
  NoDup (map Path.basename l) -> NoDup (map (dest out) l).
Proof.
  induction l as [|a l IH]; simpl; [constructor |].
  intros [Hnotin Hnd]%NoDup_cons. apply NoDup_cons. split; [| by apply IH].
  intros Hin. apply Hnotin.
  apply list_elem_of_fmap in Hin as (x & Heq & Hx).
  apply list_elem_of_fmap. exists x. split; [by apply (dest_inj out) | done].
Qed.

(** C5 (as amended).  In ephemeral-build mode, let [write_distributables]
    return N artifact paths below the ephemeral directory whose base
    names are pairwise distinct, with no directory in the working
    directory under one of these names.  After a successful run the N
    destinations [join(cwd, basename(artifact))] are N distinct files,
    each with the bytes its artifact had when the build returned, and no
    other file outside the ephemeral directory has changed.  The transfer
    is a copy: when the cleanup starts every artifact is still in place
    with the same bytes. *)
Theorem artifacts_copied_out `{C : Collaborators} (spec : Spec) (options : Options)
    (w w4 : World) (b : Bundle) (out tmp : string) (written : list string) (fs5 : FS) :
  ephemeral_start spec options w = Some (b, out, tmp, w4) ->
  write_distributables b tmp options (w_fs w4) = (Ok written, fs5) ->
  (process_spec_file spec options w).1 = Ok tt ->
  only_permissions ->
  (forall a, a ∈ written -> Path.under tmp a = true) ->
  (forall a, a ∈ written -> Path.under tmp (dest out a) = false) ->
  (forall a, a ∈ written -> isdir fs5 (dest out a) = false) ->
  NoDup (map Path.basename written) ->
  NoDup (map (dest out) written) /\
  length (map (dest out) written) = length written /\
  (forall a, a ∈ written ->
     is_Some (fs_files fs5 !! a) /\
     fs_files (w_fs (process_spec_file spec options w).2) !! dest out a =
       fs_files fs5 !! a /\
     fs_files (w_fs (build_and_copy b options out tmp w4).2) !! a =
       fs_files fs5 !! a) /\
  (forall p, Path.under tmp p = false -> p ∉ map (dest out) written ->
     fs_files (w_fs (process_spec_file spec options w).2) !! p = fs_files fs5 !! p).
Proof.
  intros Hstart Hbuild Hok Hperm Hin Hout Hnodir Hnd.
  pose proof (NoDup_dest out _ Hnd) as Hndd.
  split; [done |]. split; [by rewrite length_map |].
  rewrite (process_spec_file_ephemeral _ _ _ _ _ _ _ Hstart) in *.
  apply try_finally_ok in Hok as (Hbody & _ & Hworld). rewrite Hworld.
  rewrite build_and_copy_unfold, Hbuild in *.
  set (w5 := set_fs fs5 (record (EWriteDistributables tmp) w4)) in *.
  destruct (for_each written (copy_out out) w5) as [r w6] eqn:Eloop.
  simpl in Hbody. subst r.
  assert (Hsrc : forall a a', a ∈ written -> a' ∈ written -> dest out a <> a').
  { intros a a' Ha Ha' Heq. specialize (Hout a Ha). specialize (Hin a' Ha').
    rewrite Heq in Hout. congruence. }
  destruct (copy_loop_exact out written w5 w6 Eloop Hnodir Hsrc Hndd) as [Hcopied Hrest].
  simpl in *. split.
  - intros a Ha. destruct (Hcopied a Ha) as [Hsome Hdest].
    split; [done |]. split.
    + rewrite cleanup_outside by (done || by apply Hout). done.
    + apply Hrest. intros (x & Heq & Hx)%list_elem_of_fmap.
      by apply (Hsrc x a).
  - intros p Hp Hnotin. rewrite cleanup_outside by done. by apply Hrest.
Qed.

Lemma toy_only_permissions (b : Toy.Behaviour) : @only_permissions (Toy.engine b).
Proof.
  intros d fs. unfold fix_tree_perms, Toy.engine, Toy.fail_or.
  by destruct (Toy.perms_error b).
Qed.

Lemma artifacts_copied_out_witness :
  let engine := Toy.engine {| Toy.deps_error := None;
                              Toy.artifacts := [("app.exe", [Byte.x01]);
                                                ("app.zip", [Byte.x02])];
                              Toy.build_error := None;
                              Toy.perms_error := None |} in
  fs_files (w_fs (@process_spec_file engine tt default_options Toy.world0).2)
    !! dest "/home/u" "/tmp/styrenek3x9/app.zip" = Some [Byte.x02].
Proof.
  cbv zeta.
  set (engine := Toy.engine {| Toy.deps_error := None;
                               Toy.artifacts := [("app.exe", [Byte.x01]);
                                                 ("app.zip", [Byte.x02])];
                               Toy.build_error := None;
                               Toy.perms_error := None |}).
  pose proof (@artifacts_copied_out engine tt default_options Toy.world0
                (record (EMkdtemp "styrene") (record EGetcwd (record ECheckDeps
                   (record ENativeBundle
                      (set_fs (mkdir Toy.fs0 "/tmp/styrenek3x9")
                         (set_names ["q7ab"] Toy.world0))))))
                tt "/home/u" "/tmp/styrenek3x9"
                ["/tmp/styrenek3x9/app.exe"; "/tmp/styrenek3x9/app.zip"]
                (Toy.write_files "/tmp/styrenek3x9"
                   [("app.exe", [Byte.x01]); ("app.zip", [Byte.x02])]
                   (mkdir Toy.fs0 "/tmp/styrenek3x9"))) as H.
  destruct H as (_ & _ & H & _).
  - vm_compute. reflexivity.
  - reflexivity.
  - vm_compute. reflexivity.
  - apply toy_only_permissions.
  - intros a Ha. repeat (apply elem_of_cons in Ha as [->|Ha]; [vm_compute; reflexivity |]).
    by apply elem_of_nil in Ha.
  - intros a Ha. repeat (apply elem_of_cons in Ha as [->|Ha]; [vm_compute; reflexivity |]).
    by apply elem_of_nil in Ha.
  - intros a Ha. repeat (apply elem_of_cons in Ha as [->|Ha]; [vm_compute; reflexivity |]).
    by apply elem_of_nil in Ha.
  - apply (bool_decide_unpack _). vm_compute. reflexivity.
  - destruct (H "/tmp/styrenek3x9/app.zip") as (_ & -> & _).
    + right. left.
    + vm_compute. reflexivity.
Defined.

(** C5, as the claim states it, fails: the build returns two artifacts
    with the same base name in different subdirectories.  The run
    succeeds, both copies go to the same destination, and the working
    directory ends up with one file, which holds the bytes of the second
    artifact, not of the first. *)
Lemma two_artifacts_one_file :
  let engine := Toy.engine {| Toy.deps_error := None;
                              Toy.artifacts := [("a/app.zip", [Byte.x01]);
                                                ("b/app.zip", [Byte.x02])];
                              Toy.build_error := None;
                              Toy.perms_error := None |} in
  let res := @process_spec_file engine tt default_options Toy.world0 in
  res.1 = Ok tt /\
  w_trace res.2 =
    [ENativeBundle; ECheckDeps; EGetcwd; EMkdtemp "styrene";
     EWriteDistributables "/tmp/styrenek3x9";
     ECopy "/tmp/styrenek3x9/a/app.zip" "/home/u/app.zip";
     ECopy "/tmp/styrenek3x9/b/app.zip" "/home/u/app.zip";
     ELog INFO "Cleaning up “%s”" ["/tmp/styrenek3x9"];
     EFixTreePerms "/tmp/styrenek3x9"; ERmtree "/tmp/styrenek3x9"] /\
  Path.basename "/tmp/styrenek3x9/a/app.zip" = "app.zip" /\
  fs_files (w_fs res.2) !! "/home/u/app.zip" = Some [Byte.x02] /\
  map fst (map_to_list (fs_files (w_fs res.2))) =
    ["/home/u/app.cfg"; "/home/u/app.zip"; "/home/u/bad.cfg"].
Proof. cbv zeta. repeat split; vm_compute; reflexivity. Qed.

Lemma try_finally_raise {A} (body : M A) (fin : M unit) (w : World) (e : Exn) :
  (body w).1 = Raise e ->
  (exists e', (try_finally body fin w).1 = Raise e') /\
  ((fin (body w).2).1 = Ok tt -> (try_finally body fin w).1 = Raise e).
Proof.
  unfold try_finally. destruct (body w) as [r w1]. simpl. intros ->.
  destruct (fin w1) as [[[]|e'] w2]; simpl; eauto.
  split; [eauto | done].
Qed.

Lemma cleanup_trace_exact `{C : Collaborators} (tmp : string) (w : World) :
  w_trace (cleanup tmp w).2 =
    (w_trace w ++
     ELog INFO "Cleaning up “%s”" [tmp] :: EFixTreePerms tmp ::
     match (fix_tree_perms tmp (w_fs w)).1 with
     | Ok _ => [ERmtree tmp]
     | Raise _ => []
     end)%list.
Proof.
  rewrite cleanup_unfold. cbn zeta.
  destruct (fix_tree_perms tmp (w_fs w)) as [[[]|e] fs']; simpl;
    by rewrite <- !app_assoc.
Qed.

Lemma cleanup_removes `{C : Collaborators} (tmp : string) (w : World) :
  (cleanup tmp w).1 = Ok tt ->
  forall p, Path.under tmp p = true -> path_exists (w_fs (cleanup tmp w).2) p = false.
Proof.
  rewrite cleanup_unfold. cbn zeta.
  destruct (fix_tree_perms tmp (w_fs w)) as [[[]|e] fs']; [| done].
  destruct (shutil_rmtree tmp fs') as [[[]|e] fs''] eqn:E; [| done].
  simpl. intros _. by apply (rmtree_ok tmp fs').
Qed.

Lemma copy_out_trace (out a : string) (w : World) :
  w_trace (copy_out out a w).2 = (w_trace w ++ [ECopy a (dest out a)])%list.
Proof. by rewrite copy_out_unfold. Qed.

(** C6.  When a copy in the loop raises, the loop stops there: no later
    artifact is copied, and [process_spec_file] raises.  The cleanup
    still runs: the log line and [fix_tree_perms], then [rmtree] exactly
    when [fix_tree_perms] returns; when the cleanup returns, nothing is
    left at or below the ephemeral directory and the exception of the
    copy is the one raised.  Nothing is rolled back: afterwards every
    file outside the ephemeral directory, the destination of the failed
    copy apart, is as the copies made before the failure left it, and
    each artifact copied earlier is still a file where its copy was
    written.  With no artifact at all the loop does nothing and the
    cleanup runs in the same way. *)
Theorem copy_failure_keeps_earlier_copies `{C : Collaborators} (spec : Spec)
    (options : Options) (w w4 : World) (b : Bundle) (out tmp : string)
    (written : list string) (fs5 : FS) :
  ephemeral_start spec options w = Some (b, out, tmp, w4) ->
  write_distributables b tmp options (w_fs w4) = (Ok written, fs5) ->
  only_permissions ->
  (forall (copied : list string) (bad : string) (rest : list string)
          (w6 w7 : World) (e : Exn),
     written = (copied ++ bad :: rest)%list ->
     for_each copied (copy_out out)
       (set_fs fs5 (record (EWriteDistributables tmp) w4)) = (Ok tt, w6) ->
     copy_out out bad w6 = (Raise e, w7) ->
     build_and_copy b options out tmp w4 = (Raise e, w7) /\
     w_trace w7 = (w_trace w6 ++ [ECopy bad (dest out bad)])%list /\
     (exists e', (process_spec_file spec options w).1 = Raise e') /\
     ((cleanup tmp w7).1 = Ok tt -> (process_spec_file spec options w).1 = Raise e) /\
     w_trace (process_spec_file spec options w).2 =
       (w_trace w7 ++
        ELog INFO "Cleaning up “%s”" [tmp] :: EFixTreePerms tmp ::
        match (fix_tree_perms tmp (w_fs w7)).1 with
        | Ok _ => [ERmtree tmp]
        | Raise _ => []
        end)%list /\
     ((cleanup tmp w7).1 = Ok tt ->
      forall p, Path.under tmp p = true ->
        path_exists (w_fs (process_spec_file spec options w).2) p = false) /\
     (forall p, Path.under tmp p = false ->
        p <> copy_target (w_fs w6) bad (dest out bad) ->
        fs_files (w_fs (process_spec_file spec options w).2) !! p =
          fs_files (w_fs w6) !! p) /\
     (forall a, a ∈ copied ->
        Path.under tmp (copy_target fs5 a (dest out a)) = false ->
        isfile (w_fs (process_spec_file spec options w).2)
               (copy_target fs5 a (dest out a)) = true)) /\
  (written = [] ->
   build_and_copy b options out tmp w4 =
     (Ok tt, set_fs fs5 (record (EWriteDistributables tmp) w4)) /\
   w_trace (process_spec_file spec options w).2 =
     (w_trace w4 ++ EWriteDistributables tmp ::
      ELog INFO "Cleaning up “%s”" [tmp] :: EFixTreePerms tmp ::
      match (fix_tree_perms tmp fs5).1 with
      | Ok _ => [ERmtree tmp]
      | Raise _ => []
      end)%list /\
   ((process_spec_file spec options w).1 = Ok tt ->
    forall p, Path.under tmp p = true ->
      path_exists (w_fs (process_spec_file spec options w).2) p = false)).
Proof.
  intros Hstart Hbuild Hperm.
  pose proof (try_finally_ok (build_and_copy b options out tmp) (cleanup tmp) w4 tt)
    as Hok.
  rewrite (process_spec_file_ephemeral _ _ _ _ _ _ _ Hstart).
  rewrite try_finally_world.
  assert (Hbody : build_and_copy b options out tmp w4 =
            for_each written (copy_out out)
              (set_fs fs5 (record (EWriteDistributables tmp) w4))).
  { by rewrite build_and_copy_unfold, Hbuild. }
  split.
  - intros copied bad rest w6 w7 e -> Hdone Hbad.
    assert (Hrun : build_and_copy b options out tmp w4 = (Raise e, w7)).
    { rewrite Hbody, (for_each_app _ _ _ _ _ Hdone), for_each_cons. by rewrite Hbad. }
    pose proof (copy_out_raise _ _ _ _ _ Hbad) as Hfs.
    pose proof (copy_out_trace out bad w6) as Htr. rewrite Hbad in Htr.
    split; [done |]. split; [done |].
    destruct (try_finally_raise (build_and_copy b options out tmp) (cleanup tmp) w4 e)
      as [Hraise Hsame]; [by rewrite Hrun |].
    rewrite Hrun in *. simpl in *.
    split; [done |]. split; [done |]. split; [apply cleanup_trace_exact |].
    split; [apply cleanup_removes |].
    assert (Hkeep : forall p, Path.under tmp p = false ->
              fs_files (w_fs (cleanup tmp w7).2) !! p = fs_files (w_fs w6) !! p).
    { intros p Hp. rewrite cleanup_outside by done. by rewrite Hfs. }
    split; [by intros p Hp _; apply Hkeep |].
    intros a Ha Hout. unfold isfile. rewrite Hkeep by done.
    apply (copy_loop_copied _ _ _ _ Hdone a Ha).
  - intros ->. rewrite Hbody in *. simpl in *. split; [done |].
    split; [by rewrite cleanup_trace_exact; simpl; rewrite <- app_assoc |].
    intros (_ & Hfin & _)%Hok. by apply cleanup_removes.
Qed.

Lemma copy_failure_keeps_earlier_copies_witness :
  let res := @process_spec_file (Toy.engine Toy.two_artifacts) tt default_options
               Toy.world_locked in
  isfile (w_fs res.2)
    (copy_target
       (Toy.write_files "/tmp/styrenek3x9" (Toy.artifacts Toy.two_artifacts)
          (mkdir Toy.fs_locked "/tmp/styrenek3x9"))
       "/tmp/styrenek3x9/app.exe" (dest "/home/u" "/tmp/styrenek3x9/app.exe")) = true
  /\ res.1 = Raise (Exception "PermissionError")
  /\ path_exists (w_fs res.2) "/tmp/styrenek3x9" = false.
Proof.
  cbv zeta.
  edestruct (@copy_failure_keeps_earlier_copies (Toy.engine Toy.two_artifacts) tt
               default_options Toy.world_locked
               (record (EMkdtemp "styrene") (record EGetcwd (record ECheckDeps
                  (record ENativeBundle
                     (set_fs (mkdir Toy.fs_locked "/tmp/styrenek3x9")
                        (set_names ["q7ab"] Toy.world_locked))))))
               tt "/home/u" "/tmp/styrenek3x9"
               ["/tmp/styrenek3x9/app.exe"; "/tmp/styrenek3x9/app.zip"]
               (Toy.write_files "/tmp/styrenek3x9" (Toy.artifacts Toy.two_artifacts)
                  (mkdir Toy.fs_locked "/tmp/styrenek3x9"))) as [H _].
  - vm_compute. reflexivity.
  - vm_compute. reflexivity.
  - apply toy_only_permissions.
  - edestruct (H ["/tmp/styrenek3x9/app.exe"] "/tmp/styrenek3x9/app.zip" [])
      as (_ & _ & _ & Hsame & _ & Hgone & _ & Hfile).
    + reflexivity.
    + vm_compute. reflexivity.
    + vm_compute. reflexivity.
    + split; [| split].
      * apply Hfile; [by left | vm_compute; reflexivity].
      * apply Hsame. vm_compute. reflexivity.
      * apply Hgone; vm_compute; reflexivity.
Defined.

(** ** The loop over the specification files *)

Lemma main_unfold `{C : Collaborators} (options : Options) (args : list string)
    (isatty : bool) (w : World) :
  args <> [] ->
  main options args isatty w =
    for_each args (process_one options) (init_logging options isatty w).2.
Proof. intros Hargs. unfold main. by destruct args. Qed.

Lemma read_trace `{C : Collaborators} (f : string) (w : World) :
  w_trace (ConfigParser_read f w).2 = (w_trace w ++ [ERead f])%list.
Proof. unfold ConfigParser_read. by destruct (_ !! _). Qed.

Lemma process_one_read_raises `{C : Collaborators} (options : Options) (f : string)
    (w w3 : World) (e : Exn) :
  ConfigParser_read f w = (Raise e, w3) -> is_Exception e = true ->
  process_one options f w =
    (Raise (SystemExit 2),
     record (ELog ERROR "Failed to load bundle spec file “%s”" [f]) w3).
Proof.
  intros Hread He. unfold process_one, try_except, mbind, M_bind.
  by rewrite Hread, He.
Qed.

Lemma process_one_build_raises `{C : Collaborators} (options : Options) (f : string)
    (w w3 w4 : World) (spec : Spec) (e : Exn) :
  ConfigParser_read f w = (Ok spec, w3) ->
  process_spec_file spec options w3 = (Raise e, w4) -> is_Exception e = true ->
  process_one options f w =
    (Raise (SystemExit 2),
     record (ELog ERROR "Unexpected error while processing “%s”" [f]) w4).
Proof.
  intros Hread Hrun He. unfold process_one, try_except, mbind, M_bind.
  by rewrite Hread, Hrun, He.
Qed.

Lemma process_one_ok `{C : Collaborators} (options : Options) (f : string)
    (w w' : World) :
  process_one options f w = (Ok tt, w') <->
  exists spec w3, ConfigParser_read f w = (Ok spec, w3) /\
                  process_spec_file spec options w3 = (Ok tt, w').
Proof.
  unfold process_one, try_except, mbind, M_bind, logger_exception, emit, sys_exit, raise.
  split.
  - destruct (ConfigParser_read f w) as [[spec|e] w3].
    + destruct (process_spec_file spec options w3) as [[[]|e] w4] eqn:E.
      * intros [= <-]. eauto.
      * by destruct (is_Exception e).
    + by destruct (is_Exception e).
  - intros (spec & w3 & -> & ->). done.
Qed.

Lemma process_one_ok_errors `{C : Collaborators} (options : Options) (f : string)
    (w w' : World) :
  process_one options f w = (Ok tt, w') ->
  count_log ERROR (w_trace w') = count_log ERROR (w_trace w).
Proof.
  intros (spec & w3 & Hread & Hrun)%process_one_ok.
  pose proof (same_errors_process_spec_file spec options w3) as H.
  unfold same_errors in H. rewrite Hrun in H. simpl in H. rewrite H.
  pose proof (read_trace f w) as Ht. rewrite Hread in Ht. simpl in Ht.
  rewrite Ht, count_log_app. simpl. unfold count_log at 2. simpl. lia.
Qed.

Lemma loop_ok_errors `{C : Collaborators} (options : Options) (fs : list string)
    (w w' : World) :
  for_each fs (process_one options) w = (Ok tt, w') ->
  count_log ERROR (w_trace w') = count_log ERROR (w_trace w).
Proof.
  revert w. induction fs as [|f fs IH]; intros w.
  - by intros [= <-].
  - rewrite for_each_cons.
    destruct (process_one options f w) as [[[]|e] w1] eqn:E; [| done].
    intros H. rewrite (IH _ H). by apply (process_one_ok_errors options f).
Qed.

(** C4 (as amended).  [main] stops at the first input that fails.
    After any number of inputs processed without error: when reading the
    next one raises an [Exception] (the file can be opened and its
    content is malformed), or when [process_spec_file] raises one on it,
    one error entry is logged, it is the last thing the program does (no
    later input is read), and the process ends with status 2; this is the
    only error entry of the run.  When the last input is processed
    without error too, the process ends with status 0.  An input that
    cannot be opened is no failure of the reading: the parser skips it,
    nothing is raised, and the input goes on to [process_spec_file] as
    the empty specification. *)
Theorem main_stops_at_first_failure `{C : Collaborators} (options : Options)
    (pre : list string) (f : string) (post : list string) (isatty : bool)
    (w w2 : World) :
  for_each pre (process_one options) (init_logging options isatty w).2 = (Ok tt, w2) ->
  (forall (e : Exn) (w3 : World),
     ConfigParser_read f w2 = (Raise e, w3) -> is_Exception e = true ->
     exit_status (main options (pre ++ f :: post) isatty w).1 = 2%Z /\
     w_trace (main options (pre ++ f :: post) isatty w).2 =
       (w_trace w2 ++ [ERead f;
                       ELog ERROR "Failed to load bundle spec file “%s”" [f]])%list /\
     count_log ERROR (w_trace (main options (pre ++ f :: post) isatty w).2) =
       S (count_log ERROR (w_trace w))) /\
  (forall (spec : Spec) (w3 w4 : World) (e : Exn),
     ConfigParser_read f w2 = (Ok spec, w3) ->
     process_spec_file spec options w3 = (Raise e, w4) -> is_Exception e = true ->
     exit_status (main options (pre ++ f :: post) isatty w).1 = 2%Z /\
     w_trace (main options (pre ++ f :: post) isatty w).2 =
       (w_trace w4 ++ [ELog ERROR "Unexpected error while processing “%s”" [f]])%list /\
     count_log ERROR (w_trace (main options (pre ++ f :: post) isatty w).2) =
       S (count_log ERROR (w_trace w))) /\
  (forall (spec : Spec) (w3 w4 : World),
     ConfigParser_read f w2 = (Ok spec, w3) ->
     process_spec_file spec options w3 = (Ok tt, w4) ->
     main options (pre ++ [f]) isatty w = (Ok tt, w4) /\
     exit_status (main options (pre ++ [f]) isatty w).1 = 0%Z /\
     count_log ERROR (w_trace w4) = count_log ERROR (w_trace w)) /\
  (fs_files (w_fs w2) !! f = None ->
   ConfigParser_read f w2 = (Ok empty_spec, record (ERead f) w2)).
Proof.
  intros Hpre.
  assert (Hmain : forall post',
            main options (pre ++ f :: post') isatty w =
              for_each (f :: post') (process_one options) w2).
  { intros post'. rewrite main_unfold by (by destruct pre).
    by rewrite (for_each_app _ _ _ _ _ Hpre). }
  assert (Herr2 : count_log ERROR (w_trace w2) = count_log ERROR (w_trace w)).
  { by rewrite (loop_ok_errors _ _ _ _ Hpre). }
  split; [| split; [| split]].
  - intros e w3 Hread He. rewrite Hmain, for_each_cons.
    rewrite (process_one_read_raises _ _ _ _ _ Hread He).
    pose proof (read_trace f w2) as Ht. rewrite Hread in Ht. simpl in Ht.
    simpl. rewrite Ht, <- app_assoc. split; [done |]. split; [done |].
    rewrite count_log_app, Herr2. unfold count_log at 2. simpl. lia.
  - intros spec w3 w4 e Hread Hrun He. rewrite Hmain, for_each_cons.
    rewrite (process_one_build_raises _ _ _ _ _ _ _ Hread Hrun He).
    simpl. split; [done |]. split; [done |].
    pose proof (same_errors_process_spec_file spec options w3) as Hs.
    unfold same_errors in Hs. rewrite Hrun in Hs. simpl in Hs.
    pose proof (read_trace f w2) as Ht. rewrite Hread in Ht. simpl in Ht.
    rewrite count_log_app, Hs, Ht, count_log_app, Herr2.
    unfold count_log at 2 3. simpl. lia.
  - intros spec w3 w4 Hread Hrun.
    assert (Hone : process_one options f w2 = (Ok tt, w4)).
    { apply process_one_ok. eauto. }
    rewrite Hmain, for_each_cons, Hone. simpl. split; [done |]. split; [done |].
    by rewrite (process_one_ok_errors _ _ _ _ Hone).
  - intros Hnone. unfold ConfigParser_read. simpl. by rewrite Hnone.
Qed.

Lemma main_stops_at_first_failure_witness :
  let args := ["/home/u/app.cfg"; "/home/u/bad.cfg"; "/home/u/app.cfg"] in
  let res := @main (Toy.engine Toy.two_artifacts) default_options args false
               Toy.world0 in
  exit_status res.1 = 2%Z /\
  count_log ERROR (w_trace res.2) = 1%nat.
Proof.
  cbv zeta.
  set (w2 := (for_each ["/home/u/app.cfg"]
                (@process_one (Toy.engine Toy.two_artifacts) default_options)
                (@init_logging (Toy.engine Toy.two_artifacts) default_options false
                   Toy.world0).2).2).
  destruct (@main_stops_at_first_failure (Toy.engine Toy.two_artifacts)
              default_options ["/home/u/app.cfg"] "/home/u/bad.cfg"
              ["/home/u/app.cfg"] false Toy.world0 w2) as [H _].
  - vm_compute. reflexivity.
  - destruct (H (Exception "MissingSectionHeaderError")
                (@ConfigParser_read (Toy.engine Toy.two_artifacts)
                   "/home/u/bad.cfg" w2).2) as (Hexit & _ & Hcount).
    + vm_compute. reflexivity.
    + reflexivity.
    + split; [exact Hexit | exact Hcount].
Defined.

(** C4, as the claim states it, fails for an input that cannot be read.
    The first input does not exist; reading it raises nothing, and with
    an engine that builds from the empty specification no error entry is
    logged, the second input is read and processed, and the process ends
    with status 0.  (An engine that rejects the empty specification makes
    the run end with status 2, through the handler for errors while
    processing, not through the one for a specification that failed to
    load.) *)
Lemma unreadable_input_is_no_failure :
  let args := ["/home/u/none.cfg"; "/home/u/app.cfg"] in
  let res := @main (Toy.engine Toy.two_artifacts) default_options args false
               Toy.world0 in
  path_exists Toy.fs0 "/home/u/none.cfg" = false /\
  res.1 = Ok tt /\
  exit_status res.1 = 0%Z /\
  count_log ERROR (w_trace res.2) = 0%nat /\
  reads (w_trace res.2) = args.
Proof. cbv zeta. repeat split; vm_compute; reflexivity. Qed.

(* ================================================================== *)
(** * Further properties of [main] *)

Lemma process_one_catches `{C : Collaborators} (options : Options) (f : string)
    (w : World) (e : Exn) :
  (process_one options f w).1 = Raise e -> is_Exception e = false.
Proof.
  unfold process_one, try_except, mbind, M_bind, logger_exception, emit, sys_exit, raise.
  destruct (ConfigParser_read f w) as [[spec|e1] w3].
  - destruct (process_spec_file spec options w3) as [[[]|e2] w4]; [done |].
    destruct (is_Exception e2) eqn:E2; simpl; [by intros [= <-] | by intros [= <-]].
  - destruct (is_Exception e1) eqn:E1; simpl; [by intros [= <-] | by intros [= <-]].
Qed.

Lemma for_each_raises {A} (xs : list A) (body : A -> M unit) (w : World) (e : Exn) :
  (for_each xs body w).1 = Raise e ->
  exists x w1, x ∈ xs /\ (body x w1).1 = Raise e.
Proof.
  revert w. induction xs as [|x xs IH]; intros w; [done |].
  rewrite for_each_cons. destruct (body x w) as [[[]|e'] w1] eqn:E.
  - intros (y & w2 & Hy & Hr)%IH. exists y, w2. split; [by right | done].
  - simpl. intros [= ->]. exists x, w. split; [by left | by rewrite E].
Qed.

(** No [Exception] gets out of [main]: whatever a collaborator raises in
    the loop is caught, so the process never ends on an uncaught
    exception of that kind; it returns, or ends on a [SystemExit]. *)
Theorem main_lets_no_exception_out `{C : Collaborators} (options : Options)
    (args : list string) (isatty : bool) (w : World) (e : Exn) :
  (main options args isatty w).1 = Raise e -> is_Exception e = false.
Proof.
  destruct args as [|a args].
  - unfold main, mbind, M_bind, emit, sys_exit, raise. simpl. by intros [= <-].
  - rewrite main_unfold by done.
    intros (f & w1 & _ & Hf)%for_each_raises. by eapply process_one_catches.
Qed.

Lemma main_lets_no_exception_out_witness :
  is_Exception (SystemExit 2) = false.
Proof.
  apply (@main_lets_no_exception_out (Toy.engine Toy.two_artifacts) default_options
           ["/home/u/bad.cfg"] false Toy.world0).
  vm_compute. reflexivity.
Defined.

(** ** What the steps can raise *)

Lemma soft_ret {A} (a : A) : fails_softly (mret a : M A).
Proof. by intros w e. Qed.

Lemma soft_bind {A B} (m : M A) (k : A -> M B) :
  fails_softly m -> (forall a, fails_softly (k a)) -> fails_softly (m ≫= k).
Proof.
  intros Hm Hk w e. unfold mbind, M_bind. specialize (Hm w).
  destruct (m w) as [[a|e'] w1]; [apply Hk |].
  simpl. intros [= <-]. by apply Hm.
Qed.

Lemma soft_emit (ev : Event) : fails_softly (emit ev).
Proof. by intros w e. Qed.

Lemma soft_call {A} (ev : Event) (f : FS -> Outcome A * FS) :
  (forall fs e, (f fs).1 = Raise e -> is_Exception e = true) ->
  fails_softly (call ev f).
Proof.
  intros Hf w e. unfold call. specialize (Hf (w_fs (record ev w)) e).
  by destruct (f _) as [r fs'].
Qed.

Lemma soft_try_finally {A} (body : M A) (fin : M unit) :
  fails_softly body -> fails_softly fin -> fails_softly (try_finally body fin).
Proof.
  intros Hb Hf w e. unfold try_finally. specialize (Hb w e).
  destruct (body w) as [r w1]. specialize (Hf w1 e).
  destruct (fin w1) as [[[]|e'] w2]; simpl in *; [done |].
  intros [= ->]. by apply Hf.
Qed.

Lemma soft_for_each {A} (xs : list A) (body : A -> M unit) :
  (forall x, fails_softly (body x)) -> fails_softly (for_each xs body).
Proof.
  intros Hb. induction xs as [|x xs IH]; [apply soft_ret |].
  simpl. apply soft_bind; [apply Hb | by intros _].
Qed.

Lemma soft_getcwd : fails_softly os_getcwd.
Proof. intros w e. unfold os_getcwd. destruct (isdir _ _); [done | by intros [= <-]]. Qed.

Lemma mkdtemp_from_soft (tmpdir pfx : string) (names : list string) (fs : FS) (e : Exn) :
  (mkdtemp_from tmpdir pfx names fs).1.1 = Raise e -> is_Exception e = true.
Proof.
  induction names as [|n names IH]; simpl; [by intros [= <-] |].
  destruct (path_exists _ _); [exact IH |].
  destruct (negb _); [by intros [= <-] |].
  destruct (readonly _ _); [by intros [= <-] | done].
Qed.

Lemma soft_mkdtemp (pfx : string) : fails_softly (tempfile_mkdtemp pfx).
Proof.
  intros w e. unfold tempfile_mkdtemp.
  pose proof (mkdtemp_from_soft (w_tmpdir (record (EMkdtemp pfx) w)) pfx
                (w_names (record (EMkdtemp pfx) w)) (w_fs (record (EMkdtemp pfx) w)) e) as H.
  by destruct (mkdtemp_from _ _ _ _) as [[r ns] fs'].
Qed.

Lemma shutil_copy_soft (src dst : string) (fs : FS) (e : Exn) :
  (shutil_copy src dst fs).1 = Raise e -> is_Exception e = true.
Proof.
  unfold shutil_copy, open_error. cbv zeta.
  destruct (_ && _); [by intros [= <-] |].
  destruct (fs_files fs !! src); [| destruct (isdir fs src); by intros [= <-]].
  destruct (isdir _ _); [by intros [= <-] |].
  destruct (negb _); [by intros [= <-] |].
  destruct (_ || _); [by intros [= <-] | done].
Qed.

Lemma shutil_rmtree_soft (d : string) (fs : FS) (e : Exn) :
  (shutil_rmtree d fs).1 = Raise e -> is_Exception e = true.
Proof.
  unfold shutil_rmtree, open_error.
  destruct (negb _); [destruct (isfile fs d); by intros [= <-] |].
  destruct (existsb _ _); [by intros [= <-] | done].
Qed.

Lemma soft_process_spec_file `{C : Collaborators} (spec : Spec) (options : Options) :
  raise_exceptions_only -> fails_softly (process_spec_file spec options).
Proof.
  intros (_ & Hnb & Hdep & Hwd & Hfix).
  unfold process_spec_file, build_and_copy, copy_out, cleanup, logger_warning, logger_info.
  repeat first
    [ apply soft_ret
    | apply soft_emit
    | apply soft_getcwd
    | apply soft_mkdtemp
    | apply soft_call; first [ apply Hnb | apply Hdep | apply Hwd | apply Hfix
                             | apply shutil_copy_soft | apply shutil_rmtree_soft ]
    | apply soft_try_finally
    | apply soft_for_each; intros ?
    | match goal with |- fails_softly (if ?b then _ else _) => destruct b end
    | apply soft_bind; [| intros ?] ].
Qed.

Lemma process_one_exit_2 `{C : Collaborators} (options : Options) (f : string)
    (w : World) (e : Exn) :
  raise_exceptions_only ->
  (process_one options f w).1 = Raise e -> e = SystemExit 2.
Proof.
  intros Hsoft.
  pose proof (fun spec => soft_process_spec_file spec options Hsoft) as Hrun.
  destruct Hsoft as (Hparse & _).
  unfold process_one, try_except, mbind, M_bind, logger_exception, emit, sys_exit, raise.
  assert (Hread : forall e1, (ConfigParser_read f w).1 = Raise e1 ->
                             is_Exception e1 = true).
  { intros e1. unfold ConfigParser_read. destruct (_ !! _) as [data|]; [| done].
    simpl. apply Hparse. }
  destruct (ConfigParser_read f w) as [[spec|e1] w3].
  - specialize (Hrun spec w3).
    destruct (process_spec_file spec options w3) as [[[]|e2] w4]; [done |].
    rewrite (Hrun e2 eq_refl). simpl. by intros [= <-].
  - rewrite (Hread e1 eq_refl). simpl. by intros [= <-].
Qed.

(** The exit status is 0, 1 or 2 as long as no collaborator ends the
    process itself: 1 exactly when no input was given, in which case
    printing the help is all [main] has done (no logging set-up, nothing
    read); 0 exactly when [main] returns; 2 otherwise. *)
Theorem main_exit_status `{C : Collaborators} (options : Options)
    (args : list string) (isatty : bool) (w : World) :
  raise_exceptions_only ->
  (exit_status (main options args isatty w).1 = 0%Z \/
   exit_status (main options args isatty w).1 = 1%Z \/
   exit_status (main options args isatty w).1 = 2%Z) /\
  (exit_status (main options args isatty w).1 = 1%Z <-> args = []) /\
  (exit_status (main options args isatty w).1 = 0%Z <->
   (main options args isatty w).1 = Ok tt) /\
  (args = [] -> (main options args isatty w).2 = record EPrintHelp w).
Proof.
  intros Hsoft. destruct args as [|a args].
  - repeat split; try done; auto.
  - rewrite main_unfold by done.
    destruct (for_each (a :: args) (process_one options) _) as [[[]|e] w'] eqn:E.
    + repeat split; try done; auto.
    + assert (e = SystemExit 2) as ->.
      { destruct (for_each_raises (a :: args) (process_one options)
                    (init_logging options isatty w).2 e) as (f & w1 & _ & Hf).
        - by rewrite E.
        - by apply (process_one_exit_2 options f w1). }
      repeat split; try done; auto.
Qed.

Lemma main_exit_status_witness :
  exit_status (@main (Toy.engine Toy.two_artifacts) default_options [] false
                 Toy.world0).1 = 1%Z.
Proof.
  apply (@main_exit_status (Toy.engine Toy.two_artifacts) default_options [] false
           Toy.world0); [| reflexivity].
  repeat split.
  - intros data e. simpl. destruct data as [|[] ?]; by intros [= <-].
  - by intros spec fs e.
  - by intros b fs e.
  - by intros b d o fs e.
  - by intros d fs e.
Defined.

(** A [SystemExit] raised inside [process_spec_file] is not an
    [Exception]: the handler of [main] lets it through.  Nothing is
    logged, the remaining inputs are not processed, and the process ends
    with the code of that [SystemExit], not with 2. *)
Theorem system_exit_passes_through `{C : Collaborators} (options : Options)
    (pre : list string) (f : string) (post : list string) (isatty : bool)
    (w w2 w3 w4 : World) (spec : Spec) (code : Z) :
  for_each pre (process_one options) (init_logging options isatty w).2 = (Ok tt, w2) ->
  ConfigParser_read f w2 = (Ok spec, w3) ->
  process_spec_file spec options w3 = (Raise (SystemExit code), w4) ->
  main options (pre ++ f :: post) isatty w = (Raise (SystemExit code), w4) /\
  exit_status (main options (pre ++ f :: post) isatty w).1 = code /\
  count_log ERROR (w_trace w4) = count_log ERROR (w_trace w).
Proof.
  intros Hpre Hread Hrun.
  assert (Hmain : main options (pre ++ f :: post) isatty w = (Raise (SystemExit code), w4)).
  { rewrite main_unfold by (by destruct pre).
    rewrite (for_each_app _ _ _ _ _ Hpre), for_each_cons.
    unfold process_one, try_except, mbind, M_bind. by rewrite Hread, Hrun. }
  rewrite Hmain. split; [done |]. split; [done |].
  pose proof (same_errors_process_spec_file spec options w3) as Hs.
  unfold same_errors in Hs. rewrite Hrun in Hs. simpl in Hs. rewrite Hs.
  pose proof (read_trace f w2) as Ht. rewrite Hread in Ht. simpl in Ht.
  rewrite Ht, count_log_app, (loop_ok_errors _ _ _ _ Hpre).
  unfold count_log at 2. simpl. lia.
Qed.

Lemma system_exit_passes_through_witness :
  exit_status
    (@main (Toy.engine {| Toy.deps_error := Some (SystemExit 3);
                          Toy.artifacts := [];
                          Toy.build_error := None;
                          Toy.perms_error := None |})
       default_options ["/home/u/app.cfg"; "/home/u/app.cfg"] false Toy.world0).1 = 3%Z.
Proof.
  set (E := Toy.engine {| Toy.deps_error := Some (SystemExit 3);
                          Toy.artifacts := [];
                          Toy.build_error := None;
                          Toy.perms_error := None |}).
  set (w2 := (@init_logging E default_options false Toy.world0).2).
  apply (@system_exit_passes_through E default_options [] "/home/u/app.cfg"
           ["/home/u/app.cfg"] false Toy.world0 w2
           (@ConfigParser_read E "/home/u/app.cfg" w2).2
           (@process_spec_file E tt default_options
              (@ConfigParser_read E "/home/u/app.cfg" w2).2).2 tt 3%Z).
  - reflexivity.
  - vm_compute. reflexivity.
  - vm_compute. reflexivity.
Defined.

(* ================================================================== *)
(** * Further properties of [process_spec_file] *)

Lemma mkdtemp_from_raise (tmpdir pfx : string) (names names' : list string)
    (fs fs' : FS) (e : Exn) :
  mkdtemp_from tmpdir pfx names fs = (Raise e, names', fs') -> fs' = fs.
Proof.
  induction names as [|n names IH]; simpl; [by intros [= _ _ <-] |].
  destruct (path_exists _ _); [exact IH |].
  destruct (negb _); [by intros [= _ _ <-] |].
  destruct (readonly _ _); [by intros [= _ _ <-] | done].
Qed.

(** Whatever the options, when the construction of the bundle raises,
    or the check of its runtime dependencies does, [process_spec_file]
    raises that exception and has done nothing else: no warning, no
    look at the working directory, no temporary directory, no build. *)
Theorem bundle_failure_aborts `{C : Collaborators} (spec : Spec) (options : Options)
    (w : World) (e : Exn) :
  (forall fs1, NativeBundle spec (w_fs w) = (Raise e, fs1) ->
     process_spec_file spec options w =
       (Raise e, set_fs fs1 (record ENativeBundle w))) /\
  (forall b fs1 fs2,
     NativeBundle spec (w_fs w) = (Ok b, fs1) ->
     check_runtime_dependencies b fs1 = (Raise e, fs2) ->
     process_spec_file spec options w =
       (Raise e, set_fs fs2 (record ECheckDeps (set_fs fs1 (record ENativeBundle w)))) /\
     w_trace (process_spec_file spec options w).2 =
       (w_trace w ++ [ENativeBundle; ECheckDeps])%list /\
     w_names (process_spec_file spec options w).2 = w_names w).
Proof.
  unfold process_spec_file, mbind, M_bind, call. simpl. split.
  - intros fs1 ->. done.
  - intros b fs1 fs2 -> Hdep. simpl. rewrite Hdep. simpl.
    split; [done |]. split; [by rewrite <- app_assoc | done].
Qed.

Lemma bundle_failure_aborts_witness :
  w_trace (@process_spec_file
             (Toy.engine {| Toy.deps_error := Some (Exception "RuntimeError");
                            Toy.artifacts := [("app.exe", [Byte.x01])];
                            Toy.build_error := None;
                            Toy.perms_error := None |})
             tt default_options Toy.world0).2 = [ENativeBundle; ECheckDeps].
Proof.
  refine (proj1 (proj2 (proj2
    (@bundle_failure_aborts
       (Toy.engine {| Toy.deps_error := Some (Exception "RuntimeError");
                      Toy.artifacts := [("app.exe", [Byte.x01])];
                      Toy.build_error := None;
                      Toy.perms_error := None |})
       tt default_options Toy.world0 (Exception "RuntimeError")) tt Toy.fs0 Toy.fs0 _ _)));
    reflexivity.
Defined.

(** The temporary directory is made before the [try] statement is
    entered: when [os.getcwd] or [tempfile.mkdtemp] raises, the exception
    leaves [process_spec_file] at once; the build is not started, the
    [finally] block does not run (no "Cleaning up" line, no call of
    [fix_tree_perms] or [rmtree]) and the file system is as the
    dependency check left it. *)
Theorem no_cleanup_without_directory `{C : Collaborators} (spec : Spec)
    (options : Options) (w : World) (b : Bundle) (fs1 fs2 : FS) (e : Exn) :
  unset (output_dir options) = true ->
  build_zip options || build_exe options = true ->
  NativeBundle spec (w_fs w) = (Ok b, fs1) ->
  check_runtime_dependencies b fs1 = (Ok tt, fs2) ->
  (isdir fs2 (w_cwd w) = false ->
   (process_spec_file spec options w).1 = Raise (Exception "FileNotFoundError") /\
   w_trace (process_spec_file spec options w).2 =
     (w_trace w ++ [ENativeBundle; ECheckDeps; EGetcwd])%list /\
   w_fs (process_spec_file spec options w).2 = fs2) /\
  (isdir fs2 (w_cwd w) = true ->
   (mkdtemp_from (w_tmpdir w) "styrene" (w_names w) fs2).1.1 = Raise e ->
   (process_spec_file spec options w).1 = Raise e /\
   w_trace (process_spec_file spec options w).2 =
     (w_trace w ++ [ENativeBundle; ECheckDeps; EGetcwd; EMkdtemp "styrene"])%list /\
   w_fs (process_spec_file spec options w).2 = fs2).
Proof.
  intros Hout Hbuild Hnb Hdep.
  unfold process_spec_file, mbind, M_bind, call, os_getcwd, tempfile_mkdtemp.
  simpl. rewrite Hnb. simpl. rewrite Hdep, Hout, Hbuild. simpl. split.
  - intros ->. simpl. split; [done |]. split; [by rewrite <- !app_assoc | done].
  - intros -> Hmk. simpl.
    destruct (mkdtemp_from (w_tmpdir w) "styrene" (w_names w) fs2)
      as [[r names'] fs'] eqn:E.
    simpl in Hmk. subst r. apply mkdtemp_from_raise in E as ->. simpl.
    split; [done |]. split; [by rewrite <- !app_assoc | done].
Qed.

Lemma no_cleanup_without_directory_witness :
  w_trace (@process_spec_file (Toy.engine Toy.two_artifacts) tt default_options
             (set_names [] Toy.world0)).2 =
    [ENativeBundle; ECheckDeps; EGetcwd; EMkdtemp "styrene"].
Proof.
  refine (proj1 (proj2 (proj2
    (@no_cleanup_without_directory (Toy.engine Toy.two_artifacts) tt default_options
       (set_names [] Toy.world0) tt Toy.fs0 Toy.fs0 (Exception "FileExistsError")
       _ _ _ _) _ _))); reflexivity.
Defined.

(* ================================================================== *)
(** * Further properties of [ColorFormatter.format] *)

Lemma match_chr_first (c : ascii) (p : pattern) (a : ascii) (s : string) :
  Ascii.eqb a c = false -> match_here (Chr c :: p) (String a s) = None.
Proof. intros H. simpl. by rewrite H. Qed.

Lemma re_sub_without (c : ascii) (p : pattern) (repl : string -> string) (s : string) :
  contains c s = false -> re_sub (Chr c :: p) repl s = s.
Proof.
  induction s as [|a s IH]; simpl.
  - intros _. by apply re_sub_nil.
  - intros [Ha Hs]%orb_false_iff.
    rewrite re_sub_miss by (by apply match_chr_first). by rewrite IH.
Qed.

(** A message without a percent sign has nothing to highlight: [format]
    leaves it as it is, and no control code is put into it. *)
Theorem format_leaves_plain_message (record : ColorFormatter.LogRecord) :
  contains "%" (ColorFormatter.msg record) = false ->
  ColorFormatter.msg (ColorFormatter.format_record record) = ColorFormatter.msg record.
Proof.
  intros H. simpl. unfold ColorFormatter.highlight. simpl.
  unfold ColorFormatter.re_repr, ColorFormatter.re_str, ColorFormatter.re_int,
    ColorFormatter.re_float.
  by do 4 rewrite (re_sub_without _ _ _ _ H).
Qed.

Lemma format_leaves_plain_message_witness :
  ColorFormatter.highlight "Cleaning up the build tree (100 files)" =
    "Cleaning up the build tree (100 files)".
Proof.
  apply (format_leaves_plain_message
           {| ColorFormatter.levelname := "INFO"; ColorFormatter.name := "styrene";
              ColorFormatter.msg := "Cleaning up the build tree (100 files)";
              ColorFormatter.reset := ""; ColorFormatter.bold := "";
              ColorFormatter.boldOff := ""; ColorFormatter.italic := "";
              ColorFormatter.italicOff := ""; ColorFormatter.underline := "";
              ColorFormatter.underlineOff := ""; ColorFormatter.levelCol := "" |}).
  reflexivity.
Defined.

(** The colour prefix of a record: a level name outside the table gets
    the empty prefix (the lookup is guarded, no [KeyError]); each of the
    five names of the table gets a code that starts with "ESC [" and is
    not empty.  Level and logger name are passed on unchanged. *)
Theorem level_colour_prefix (record : ColorFormatter.LogRecord) :
  (ColorFormatter.levelname record ∉ known_levels ->
   ColorFormatter.levelCol (ColorFormatter.format_record record) = "") /\
  (ColorFormatter.levelname record ∈ known_levels ->
   exists code,
     ColorFormatter.levelCol (ColorFormatter.format_record record) =
       String ColorFormatter.ESC (String "[" code) /\
     ColorFormatter.LEVELCOL !! ColorFormatter.levelname record =
       Some (String ColorFormatter.ESC (String "[" code))) /\
  ColorFormatter.levelname (ColorFormatter.format_record record) =
    ColorFormatter.levelname record /\
  ColorFormatter.name (ColorFormatter.format_record record) =
    ColorFormatter.name record.
Proof.
  simpl. unfold known_levels. split; [| split; [| done]].
  - intros Hnot. unfold ColorFormatter.LEVELCOL.
    rewrite !lookup_insert_ne, lookup_empty; [done | ..];
      intros Heq; apply Hnot; rewrite <- Heq; set_solver.
  - intros Hin.
    repeat (apply elem_of_cons in Hin as [->|Hin]; [by eexists |]).
    by apply elem_of_nil in Hin.
Qed.

Lemma level_colour_prefix_witness :
  ColorFormatter.levelCol
    (ColorFormatter.format_record
       {| ColorFormatter.levelname := "NOTICE"; ColorFormatter.name := "styrene";
          ColorFormatter.msg := "x";
          ColorFormatter.reset := ""; ColorFormatter.bold := "";
          ColorFormatter.boldOff := ""; ColorFormatter.italic := "";
          ColorFormatter.italicOff := ""; ColorFormatter.underline := "";
          ColorFormatter.underlineOff := ""; ColorFormatter.levelCol := "" |}) = "".
Proof.
  apply level_colour_prefix. simpl. unfold known_levels.
  apply (bool_decide_unpack _). vm_compute. reflexivity.
Defined.

(** ** What the terminal shows of a highlighted message *)

Lemma shown_plain (m rest : string) :
  contains ColorFormatter.ESC m = false ->
  shown false (m +:+ rest) = m +:+ shown false rest /\
  codes_plain false (m +:+ rest) = codes_plain false rest.
Proof.
  induction m as [|a m IH]; simpl; [done |].
  intros [Ha Hm]%orb_false_iff. rewrite Ha. destruct (IH Hm) as [-> ->]. done.
Qed.

Lemma placeholder_plain (k : kind) (m : string) :
  is_placeholder k m -> contains ColorFormatter.ESC m = false.
Proof.
  assert (Hd : forall d, Str.all ColorFormatter.digit_or_dot d = true ->
            forall c, contains ColorFormatter.ESC (d +:+ String c "") =
                        Ascii.eqb c ColorFormatter.ESC).
  { induction d as [|a d IH]; simpl; intros H c.
    - by rewrite orb_false_r.
    - apply andb_true_iff in H as [Ha Hd]. rewrite (IH Hd).
      destruct (Ascii.eqb_spec a ColorFormatter.ESC) as [->|]; [done | done]. }
  destruct k; simpl; try by intros ->.
  all: intros (sg & d & -> & [->| ->] & Hall); simpl; by rewrite (Hd d Hall).
Qed.

Lemma match_starts_with_percent (k : kind) (a : ascii) (s : string) :
  Ascii.eqb a "%" = false -> match_here (regex_of k) (String a s) = None.
Proof. intros H. destruct k; by apply match_chr_first. Qed.

Lemma shown_bold (m rest : string) :
  contains ColorFormatter.ESC m = false ->
  shown false (ColorFormatter.replace_bold m +:+ rest) = m +:+ shown false rest /\
  codes_plain false (ColorFormatter.replace_bold m +:+ rest) = codes_plain false rest.
Proof.
  intros Hm. unfold ColorFormatter.replace_bold. rewrite !str_app_assoc.
  change (ColorFormatter.BOLD +:+ ?x) with
    (String ColorFormatter.ESC (String "[" (String "0" (String "1" (String "m" x))))).
  cbn [shown codes_plain]. simpl Ascii.eqb. cbn [negb andb].
  destruct (shown_plain m (ColorFormatter.BOLDOFF +:+ rest) Hm) as [-> ->].
  done.
Qed.

Lemma shown_sub (k : kind) (s : string) (in_code : bool) :
  codes_plain in_code s = true ->
  shown in_code (re_sub (regex_of k) ColorFormatter.replace_bold s) = shown in_code s /\
  codes_plain in_code (re_sub (regex_of k) ColorFormatter.replace_bold s) = true.
Proof.
  remember (String.length s) as n eqn:Hn.
  revert s in_code Hn. induction n as [n IH] using lt_wf_ind. intros s b -> Hs.
  destruct (match_here (regex_of k) s) as [[m rest]|] eqn:E.
  - pose proof (match_sound _ _ _ _ E) as Hp.
    pose proof (match_here_split _ _ _ _ E) as Hsplit.
    pose proof (placeholder_nonempty _ _ Hp) as Hm.
    pose proof (placeholder_plain _ _ Hp) as Hplain.
    rewrite (re_sub_hit _ _ _ _ _ E Hm).
    destruct b.
    + destruct s as [|a s]; [by rewrite match_empty in E |].
      simpl in Hs. apply andb_true_iff in Hs as [Ha _].
      apply negb_true_iff in Ha.
      by rewrite (match_starts_with_percent _ _ _ Ha) in E.
    + destruct (shown_bold m (re_sub (regex_of k) ColorFormatter.replace_bold rest) Hplain)
        as [-> ->].
      subst s. destruct (shown_plain m rest Hplain) as [-> Hc].
      rewrite Hc in Hs.
      destruct (IH (String.length rest)) with (s := rest) (in_code := false)
        as [-> ->]; try done.
      rewrite str_app_length. destruct m; [done | simpl; lia].
  - destruct s as [|a s].
    + by rewrite re_sub_nil.
    + rewrite re_sub_miss by done. cbn [shown codes_plain] in *.
      destruct b.
      * apply andb_true_iff in Hs as [Ha Hs]. rewrite Ha. cbn [andb].
        eapply IH; [| reflexivity | exact Hs]. simpl. lia.
      * destruct (Ascii.eqb a ColorFormatter.ESC).
        -- eapply IH; [| reflexivity | exact Hs]. simpl. lia.
        -- destruct (IH (String.length s)) with (s := s) (in_code := false)
             as [-> ->]; try done. simpl. lia.
Qed.

Lemma shown_without_codes (s : string) :
  contains ColorFormatter.ESC s = false ->
  shown false s = s /\ codes_plain false s = true.
Proof.
  intros H. destruct (shown_plain s "" H) as [H1 H2].
  cbn [shown codes_plain] in H1, H2.
  rewrite !str_app_nil_r in H1. by rewrite str_app_nil_r in H2.
Qed.

(** Highlighting changes nothing of what is read on the terminal: when
    the control sequences already in the message hold no percent sign,
    the formatted message shows the same text as the message, and a
    message without the escape character is shown as it is.  So [format]
    inserts control sequences and nothing else, and never drops or
    reorders a character of the message. *)
Theorem highlighting_shows_the_message (record : ColorFormatter.LogRecord) :
  (codes_plain false (ColorFormatter.msg record) = true ->
   shown false (ColorFormatter.msg (ColorFormatter.format_record record)) =
     shown false (ColorFormatter.msg record)) /\
  (contains ColorFormatter.ESC (ColorFormatter.msg record) = false ->
   shown false (ColorFormatter.msg (ColorFormatter.format_record record)) =
     ColorFormatter.msg record).
Proof.
  assert (Hgen : forall msg, codes_plain false msg = true ->
            shown false (ColorFormatter.highlight msg) = shown false msg).
  { intros msg H0. unfold ColorFormatter.highlight. simpl.
    destruct (shown_sub KRepr msg false H0) as [E1 H1].
    destruct (shown_sub KStr _ false H1) as [E2 H2].
    destruct (shown_sub KInt _ false H2) as [E3 H3].
    destruct (shown_sub KFloat _ false H3) as [E4 _].
    simpl in *. congruence. }
  simpl. split.
  - apply Hgen.
  - intros H. destruct (shown_without_codes _ H) as [E Hc].
    by rewrite (Hgen _ Hc).
Qed.

Lemma highlighting_shows_the_message_witness :
  shown false (ColorFormatter.highlight "found %d packages in %s (%+.2f%%)") =
    "found %d packages in %s (%+.2f%%)".
Proof.
  apply (proj2 (highlighting_shows_the_message
           {| ColorFormatter.levelname := "INFO"; ColorFormatter.name := "styrene";
              ColorFormatter.msg := "found %d packages in %s (%+.2f%%)";
              ColorFormatter.reset := ""; ColorFormatter.bold := "";
              ColorFormatter.boldOff := ""; ColorFormatter.italic := "";
              ColorFormatter.italicOff := ""; ColorFormatter.underline := "";
              ColorFormatter.underlineOff := ""; ColorFormatter.levelCol := "" |})).
  reflexivity.
Defined.

(* ================================================================== *)
(** * The steps of an ephemeral build, in order *)

Lemma ephemeral_start_trace `{C : Collaborators} (spec : Spec) (options : Options)
    (w w4 : World) (b : Bundle) (out tmp : string) :
  ephemeral_start spec options w = Some (b, out, tmp, w4) ->
  w_trace w4 =
    (w_trace w ++ [ENativeBundle; ECheckDeps; EGetcwd; EMkdtemp "styrene"])%list.
Proof.
  unfold ephemeral_start.
  destruct (unset (output_dir options) && _); [| done].
  unfold mbind, M_bind, mret, M_ret, call, os_getcwd, tempfile_mkdtemp. simpl.
  destruct (NativeBundle spec (w_fs w)) as [[b'|e] fs1]; [| done]. simpl.
  destruct (check_runtime_dependencies b' fs1) as [[[]|e] fs2]; [| done]. simpl.
  destruct (isdir fs2 (w_cwd w)); [| done].
  destruct (mkdtemp_from _ _ _ _) as [[[tmp'|e] ns] fs']; [| done].
  intros [= <- <- <- <-]. simpl. by rewrite <- !app_assoc.
Qed.

Lemma copy_loop_trace (out : string) (l : list string) (w : World) :
  exists copied,
    copied `prefix_of` l /\
    w_trace (for_each l (copy_out out) w).2 =
      (w_trace w ++ map (fun a => ECopy a (dest out a)) copied)%list /\
    ((for_each l (copy_out out) w).1 = Ok tt -> copied = l).
Proof.
  revert w. induction l as [|a l IH]; intros w.
  - exists []. simpl. by rewrite app_nil_r.
  - rewrite for_each_cons, copy_out_unfold.
    destruct (shutil_copy a (dest out a) (w_fs w)) as [[t|e] fs']; simpl.
    + destruct (IH (set_fs fs' (record (ECopy a (dest out a)) w)))
        as (copied & Hpre & Htr & Hok).
      exists (a :: copied). split; [by apply prefix_cons |].
      split; [| by intros ->%Hok].
      rewrite Htr. simpl. by rewrite <- app_assoc.
    + exists [a]. split; [apply prefix_cons, prefix_nil |]. done.
Qed.

Lemma cleanup_steps `{C : Collaborators} (tmp : string) (w : World) :
  exists rm,
    (rm = [] \/ rm = [ERmtree tmp]) /\
    w_trace (cleanup tmp w).2 =
      (w_trace w ++ ELog INFO "Cleaning up “%s”" [tmp] :: EFixTreePerms tmp :: rm)%list /\
    ((cleanup tmp w).1 = Ok tt -> rm = [ERmtree tmp]).
Proof.
  rewrite cleanup_unfold. cbn zeta.
  destruct (fix_tree_perms tmp (w_fs w)) as [[[]|e] fs']; simpl.
  - exists [ERmtree tmp]. split; [by right |]. by rewrite <- !app_assoc.
  - exists []. split; [by left |]. by rewrite <- !app_assoc.
Qed.

(** Once the ephemeral directory exists, what [process_spec_file] does
    is fixed in kind and in order: the build into the ephemeral
    directory; then one copy for each artifact of a prefix of the list the
    build returned, in the order of that list, each to
    [join(cwd, basename(artifact))] (none when the build raised); then the
    log line of the cleanup and [fix_tree_perms], followed by [rmtree] or
    by nothing.  Nothing is copied once the cleanup has begun and no step
    is repeated.  When [process_spec_file] returns, every artifact was
    copied and [rmtree] was called. *)
Theorem ephemeral_build_steps `{C : Collaborators} (spec : Spec) (options : Options)
    (w w4 : World) (b : Bundle) (out tmp : string) :
  ephemeral_start spec options w = Some (b, out, tmp, w4) ->
  exists copied rm,
    w_trace (process_spec_file spec options w).2 =
      (w_trace w ++
       [ENativeBundle; ECheckDeps; EGetcwd; EMkdtemp "styrene"; EWriteDistributables tmp] ++
       map (fun a => ECopy a (dest out a)) copied ++
       ELog INFO "Cleaning up “%s”" [tmp] :: EFixTreePerms tmp :: rm)%list /\
    (rm = [] \/ rm = [ERmtree tmp]) /\
    match (write_distributables b tmp options (w_fs w4)).1 with
    | Ok written => copied `prefix_of` written
    | Raise _ => copied = []
    end /\
    ((process_spec_file spec options w).1 = Ok tt ->
     (write_distributables b tmp options (w_fs w4)).1 = Ok copied /\
     rm = [ERmtree tmp]).
Proof.
  intros Hstart.
  rewrite (process_spec_file_ephemeral _ _ _ _ _ _ _ Hstart).
  rewrite try_finally_world.
  pose proof (ephemeral_start_trace _ _ _ _ _ _ _ Hstart) as Htr4.
  pose proof (try_finally_ok (build_and_copy b options out tmp) (cleanup tmp) w4 tt)
    as Hok.
  rewrite build_and_copy_unfold in *.
  destruct (write_distributables b tmp options (w_fs w4)) as [[written|e] fs5]; simpl.
  - set (w5 := set_fs fs5 (record (EWriteDistributables tmp) w4)) in *.
    destruct (copy_loop_trace out written w5) as (copied & Hpre & Htr & Hall).
    destruct (cleanup_steps tmp (for_each written (copy_out out) w5).2)
      as (rm & Hrm & Htrc & Hrmok).
    exists copied, rm. rewrite Htrc, Htr. subst w5. simpl. rewrite Htr4.
    split; [by rewrite <- !app_assoc |]. split; [done |]. split; [done |].
    intros (Hbody & Hfin & _)%Hok. split; [by rewrite (Hall Hbody) | by apply Hrmok].
  - destruct (cleanup_steps tmp (set_fs fs5 (record (EWriteDistributables tmp) w4)))
      as (rm & Hrm & Htrc & Hrmok).
    exists [], rm. rewrite Htrc. simpl. rewrite Htr4.
    split; [by rewrite <- !app_assoc |]. split; [done |]. split; [done |].
    by intros (Hbody & _)%Hok.
Qed.

Lemma ephemeral_build_steps_witness :
  let w4 := record (EMkdtemp "styrene") (record EGetcwd (record ECheckDeps
              (record ENativeBundle
                 (set_fs (mkdir Toy.fs0 "/tmp/styrenek3x9")
                    (set_names ["q7ab"] Toy.world0))))) in
  exists copied rm,
    w_trace (@process_spec_file (Toy.engine Toy.two_artifacts) tt default_options
               Toy.world0).2 =
      (w_trace Toy.world0 ++
       [ENativeBundle; ECheckDeps; EGetcwd; EMkdtemp "styrene";
        EWriteDistributables "/tmp/styrenek3x9"] ++
       map (fun a => ECopy a (dest "/home/u" a)) copied ++
       ELog INFO "Cleaning up “%s”" ["/tmp/styrenek3x9"] ::
       EFixTreePerms "/tmp/styrenek3x9" :: rm)%list /\
    (rm = [] \/ rm = [ERmtree "/tmp/styrenek3x9"]) /\
    match (@write_distributables (Toy.engine Toy.two_artifacts) tt "/tmp/styrenek3x9"
             default_options (w_fs w4)).1 with
    | Ok written => copied `prefix_of` written
    | Raise _ => copied = []
    end /\
    ((@process_spec_file (Toy.engine Toy.two_artifacts) tt default_options
        Toy.world0).1 = Ok tt ->
     (@write_distributables (Toy.engine Toy.two_artifacts) tt "/tmp/styrenek3x9"
        default_options (w_fs w4)).1 = Ok copied /\
     rm = [ERmtree "/tmp/styrenek3x9"]).
Proof.
  intros w4.
  refine (@ephemeral_build_steps (Toy.engine Toy.two_artifacts) tt default_options
            Toy.world0 w4 tt "/home/u" "/tmp/styrenek3x9" _).
  vm_compute. reflexivity.
Defined.

(* ================================================================== *)
(** * Where a copy goes *)

Lemma basename_no_sep (b : string) : Path.has_sep b = false -> Path.basename b = b.
Proof.
  destruct b as [|a b]; [done |]. simpl.
  intros [Ha Hb]%orb_false_iff. by rewrite Hb, Ha.
Qed.

Lemma has_sep_app (x b : string) :
  Path.ends_with_sep x = true -> Path.has_sep (x +:+ b) = true.
Proof.
  induction x as [|a x IH]; [done |]. simpl.
  destruct x as [|a' x].
  - by intros ->.
  - intros H. rewrite (IH H). apply orb_true_r.
Qed.

Lemma basename_app (x b : string) :
  Path.has_sep b = false -> Path.ends_with_sep x = true ->
  Path.basename (x +:+ b) = b.
Proof.
  intros Hb. induction x as [|a x IH]; [done |].
  destruct x as [|a' x].
  - simpl. intros ->. by rewrite Hb.
  - intros H. change (Path.ends_with_sep (String a' x) = true) in H.
    change (String a (String a' x) +:+ b) with (String a (String a' x +:+ b)).
    cbn [Path.basename]. rewrite (has_sep_app _ b H). by apply IH.
Qed.

Lemma ends_with_sep_snoc (x : string) : Path.ends_with_sep (x +:+ "/") = true.
Proof.
  induction x as [|a x IH]; [done |].
  change (String a x +:+ "/") with (String a (x +:+ "/")).
  destruct x as [|a' x]; [done |]. exact IH.
Qed.

(** The copy of an artifact is named after the artifact: the
    destination [join(output_dir, basename(distfile))] has the base name
    of [distfile], whatever the output directory.  So two artifacts are
    sent to the same destination exactly when their base names are equal,
    wherever they lie in the build tree. *)
Theorem destination_keeps_base_name (out a a' : string) :
  Path.basename (dest out a) = Path.basename a /\
  (dest out a = dest out a' <-> Path.basename a = Path.basename a').
Proof.
  split.
  - unfold dest, Path.join.
    pose proof (has_sep_basename a) as Hb.
    rewrite (starts_with_sep_no_sep _ Hb).
    destruct (String.eqb_spec out "") as [->|Hne]; cbn [orb].
    + by apply basename_no_sep.
    + destruct (Path.ends_with_sep out) eqn:He.
      * by apply basename_app.
      * rewrite <- str_app_assoc. apply basename_app; [done |].
        apply ends_with_sep_snoc.
  - split; [apply dest_inj |]. unfold dest. by intros ->.
Qed.

(* ================================================================== *)
(** * The inputs [main] reads *)

Lemma reads_app (t1 t2 : list Event) : reads (t1 ++ t2) = (reads t1 ++ reads t2)%list.
Proof.
  induction t1 as [|e t1 IH]; [done |]. destruct e; simpl; by rewrite ?IH.
Qed.

Lemma same_reads_record (w : World) (e : Event) :
  reads [e] = [] -> same_reads w (record e w).
Proof. intros He. unfold same_reads. simpl. by rewrite reads_app, He, app_nil_r. Qed.

(** [process_spec_file] reads no input file. *)
Lemma same_reads_process_spec_file `{C : Collaborators} (spec : Spec)
    (options : Options) :
  keeps same_reads (process_spec_file spec options).
Proof.
  assert (Hrefl : forall w, same_reads w w) by done.
  assert (Htrans : forall w1 w2 w3,
            same_reads w1 w2 -> same_reads w2 w3 -> same_reads w1 w3).
  { unfold same_reads. intros w1 w2 w3 H1 H2. congruence. }
  assert (Hfs : forall w fs, same_reads w (set_fs fs w)) by done.
  assert (Hns : forall w ns, same_reads w (set_names ns w)) by done.
  unfold process_spec_file, build_and_copy, copy_out, cleanup, logger_warning,
    logger_info.
  repeat first
    [ exact Hrefl | exact Htrans | exact Hfs | exact Hns | exact same_reads_record
    | reflexivity
    | match goal with |- keeps _ (if ?b then _ else _) => destruct b end
    | eapply keeps_ret
    | eapply keeps_getcwd with (allowed := fun e => reads [e] = [])
    | eapply keeps_mkdtemp with (allowed := fun e => reads [e] = [])
    | eapply keeps_call with (allowed := fun e => reads [e] = [])
    | eapply keeps_emit with (allowed := fun e => reads [e] = [])
    | eapply keeps_try_finally
    | eapply keeps_for_each; [| | intros ?]
    | eapply keeps_bind; [| | intros ?] ].
Qed.

Lemma process_one_reads `{C : Collaborators} (options : Options) (f : string)
    (w : World) :
  reads (w_trace (process_one options f w).2) = (reads (w_trace w) ++ [f])%list.
Proof.
  pose proof (read_trace f w) as Hread.
  unfold process_one, try_except, mbind, M_bind, logger_exception, emit, sys_exit, raise.
  destruct (ConfigParser_read f w) as [[spec|e] w3]; simpl in Hread.
  - pose proof (same_reads_process_spec_file spec options w3) as Hrun.
    unfold same_reads in Hrun.
    destruct (process_spec_file spec options w3) as [[[]|e] w4]; simpl in Hrun.
    + simpl. by rewrite Hrun, Hread, reads_app.
    + destruct (is_Exception e); simpl; rewrite ?reads_app, Hrun, Hread, reads_app;
        simpl; by rewrite ?app_nil_r.
  - destruct (is_Exception e); simpl; rewrite ?reads_app, Hread, reads_app;
      simpl; by rewrite ?app_nil_r.
Qed.

Lemma loop_reads `{C : Collaborators} (options : Options) (args : list string)
    (w : World) :
  exists read,
    read `prefix_of` args /\
    reads (w_trace (for_each args (process_one options) w).2) =
      (reads (w_trace w) ++ read)%list /\
    ((for_each args (process_one options) w).1 = Ok tt -> read = args).
Proof.
  revert w. induction args as [|f args IH]; intros w.
  - exists []. simpl. by rewrite app_nil_r.
  - rewrite for_each_cons. pose proof (process_one_reads options f w) as Hf.
    destruct (process_one options f w) as [[[]|e] w1]; simpl in Hf.
    + destruct (IH w1) as (read & Hpre & Htr & Hok).
      exists (f :: read). split; [by apply prefix_cons |].
      split; [| by intros ->%Hok]. rewrite Htr, Hf. by rewrite <- app_assoc.
    + exists [f]. split; [apply prefix_cons, prefix_nil |]. done.
Qed.

(** [main] reads the inputs in the order given on the command line,
    each at most once and none that was not given: the files read are a
    prefix of the arguments.  When [main] returns, every argument was
    read. *)
Theorem main_reads_inputs_in_order `{C : Collaborators} (options : Options)
    (args : list string) (isatty : bool) (w : World) :
  exists read,
    read `prefix_of` args /\
    reads (w_trace (main options args isatty w).2) = (reads (w_trace w) ++ read)%list /\
    ((main options args isatty w).1 = Ok tt -> read = args).
Proof.
  destruct args as [|f args].
  - exists []. split; [done |]. split; [| done].
    unfold main, mbind, M_bind, emit, sys_exit, raise. simpl.
    by rewrite reads_app.
  - rewrite main_unfold by done.
    destruct (loop_reads options (f :: args) (init_logging options isatty w).2)
      as (read & Hpre & Htr & Hok).
    exists read. split; [done |]. split; [| done]. by rewrite Htr.
Qed.

(* ================================================================== *)
(** * Error entries and the exit status *)

Lemma read_errors `{C : Collaborators} (f : string) (w : World) :
  count_log ERROR (w_trace (ConfigParser_read f w).2) = count_log ERROR (w_trace w).
Proof. rewrite read_trace, count_log_app. unfold count_log at 2. simpl. lia. Qed.

Lemma process_one_errors `{C : Collaborators} (options : Options) (f : string)
    (w : World) :
  raise_exceptions_only ->
  count_log ERROR (w_trace (process_one options f w).2) =
    (count_log ERROR (w_trace w) +
     match (process_one options f w).1 with Ok _ => 0 | Raise _ => 1 end)%nat.
Proof.
  intros Hsoft.
  pose proof (fun spec => soft_process_spec_file spec options Hsoft) as Hrun.
  destruct Hsoft as (Hparse & _).
  assert (Hread : forall e1, (ConfigParser_read f w).1 = Raise e1 ->
                             is_Exception e1 = true).
  { intros e1. unfold ConfigParser_read. destruct (_ !! _) as [data|]; [| done].
    simpl. apply Hparse. }
  pose proof (read_errors f w) as Hcount.
  destruct (ConfigParser_read f w) as [[spec|e1] w3] eqn:Eread; simpl in Hcount.
  - pose proof (same_errors_process_spec_file spec options w3) as Hsame.
    unfold same_errors in Hsame. specialize (Hrun spec w3).
    destruct (process_spec_file spec options w3) as [[[]|e2] w4] eqn:Erun;
      simpl in Hsame.
    + assert (process_one options f w = (Ok tt, w4)) as ->.
      { apply process_one_ok. eauto. }
      simpl. lia.
    + rewrite (process_one_build_raises _ _ _ _ _ _ _ Eread Erun (Hrun e2 eq_refl)).
      cbn [fst snd]. rewrite count_log_record. simpl. lia.
  - rewrite (process_one_read_raises _ _ _ _ _ Eread (Hread e1 eq_refl)).
    cbn [fst snd]. rewrite count_log_record. simpl. lia.
Qed.

Lemma loop_errors `{C : Collaborators} (options : Options) (args : list string)
    (w : World) :
  raise_exceptions_only ->
  count_log ERROR (w_trace (for_each args (process_one options) w).2) =
    (count_log ERROR (w_trace w) +
     match (for_each args (process_one options) w).1 with
     | Ok _ => 0
     | Raise _ => 1
     end)%nat.
Proof.
  intros Hsoft. revert w. induction args as [|f args IH]; intros w.
  - simpl. lia.
  - rewrite for_each_cons. pose proof (process_one_errors options f w Hsoft) as Hf.
    destruct (process_one options f w) as [[[]|e] w1]; simpl in Hf.
    + rewrite IH. lia.
    + simpl. lia.
Qed.

(** As long as no collaborator ends the process itself, the log and the
    exit status agree: a run that ends with status 2 has logged exactly
    one error entry, and a run that ends with status 0 or 1 has logged
    none.  A failure is never silent, and a run that succeeds never logs
    an error. *)
Theorem error_entry_iff_exit_2 `{C : Collaborators} (options : Options)
    (args : list string) (isatty : bool) (w : World) :
  raise_exceptions_only ->
  count_log ERROR (w_trace (main options args isatty w).2) =
    (count_log ERROR (w_trace w) +
     if (exit_status (main options args isatty w).1 =? 2)%Z then 1 else 0)%nat.
Proof.
  intros Hsoft. destruct args as [|a args].
  - unfold main, mbind, M_bind, emit, sys_exit, raise. simpl.
    rewrite count_log_app. unfold count_log at 2. simpl. lia.
  - rewrite main_unfold by done.
    pose proof (loop_errors options (a :: args) (init_logging options isatty w).2 Hsoft)
      as Hloop.
    destruct (for_each (a :: args) (process_one options) _) as [[[]|e] w'] eqn:E.
    + simpl in *. lia.
    + assert (e = SystemExit 2) as ->.
      { destruct (for_each_raises (a :: args) (process_one options)
                    (init_logging options isatty w).2 e) as (f & w1 & _ & Hf).
        - by rewrite E.
        - by apply (process_one_exit_2 options f w1). }
      simpl in *. lia.
Qed.

Lemma toy_raise_exceptions_only : @raise_exceptions_only (Toy.engine Toy.two_artifacts).
Proof.
  repeat split.
  - intros data e. simpl. destruct data as [|[] ?]; by intros [= <-].
  - by intros spec fs e.
  - by intros b fs e.
  - by intros b d o fs e.
  - by intros d fs e.
Qed.

Lemma error_entry_iff_exit_2_witness :
  count_log ERROR
    (w_trace (@main (Toy.engine Toy.two_artifacts) default_options
                ["/home/u/bad.cfg"; "/home/u/app.cfg"] false Toy.world0).2) = 1%nat.
Proof.
  refine (eq_trans
    (@error_entry_iff_exit_2 (Toy.engine Toy.two_artifacts) default_options
       ["/home/u/bad.cfg"; "/home/u/app.cfg"] false Toy.world0
       toy_raise_exceptions_only) _).
  vm_compute. reflexivity.
Defined.

(* ================================================================== *)
(** * An input file that is not there *)

(** [ConfigParser.read] skips a file it cannot open, so an input that
    does not exist is no load failure: the bundle is built from the empty
    specification.  When [process_spec_file] accepts it, the loop goes on
    as after any other input; when it raises an [Exception], the error
    logged is the one for an error while processing, not the one for a
    specification that failed to load. *)
Theorem missing_input_is_an_empty_spec `{C : Collaborators} (options : Options)
    (f : string) (w : World) :
  fs_files (w_fs w) !! f = None ->
  ((process_spec_file empty_spec options (record (ERead f) w)).1 = Ok tt ->
   process_one options f w =
     process_spec_file empty_spec options (record (ERead f) w)) /\
  (forall e,
     (process_spec_file empty_spec options (record (ERead f) w)).1 = Raise e ->
     is_Exception e = true ->
     process_one options f w =
       (Raise (SystemExit 2),
        record (ELog ERROR "Unexpected error while processing “%s”" [f])
          (process_spec_file empty_spec options (record (ERead f) w)).2)).
Proof.
  intros Hmissing.
  assert (Hread : ConfigParser_read f w = (Ok empty_spec, record (ERead f) w)).
  { unfold ConfigParser_read. simpl. by rewrite Hmissing. }
  destruct (process_spec_file empty_spec options (record (ERead f) w))
    as [r w4] eqn:Erun.
  split.
  - simpl. intros ->. apply process_one_ok. eauto.
  - simpl. intros e -> He. by apply (process_one_build_raises _ _ _ _ _ _ _ Hread Erun).
Qed.

Lemma missing_input_is_an_empty_spec_witness :
  @process_one (Toy.engine Toy.two_artifacts) default_options "/home/u/none.cfg"
    Toy.world0 =
  @process_spec_file (Toy.engine Toy.two_artifacts) tt default_options
    (record (ERead "/home/u/none.cfg") Toy.world0).
Proof.
  refine (proj1 (@missing_input_is_an_empty_spec (Toy.engine Toy.two_artifacts)
                   default_options "/home/u/none.cfg" Toy.world0 _) _);
    vm_compute; reflexivity.
Defined.
